(** * Daip chat room: presence tracker, message bus and bot dispatcher

    A shallow embedding of [src/App.tsx] (the [ChatRoom] component),
    [src/services/aiService.ts], [src/types.ts] and [src/constants.ts],
    followed by the properties of the specification proved about it.

    Conventions of the embedding:
    - a JavaScript string is the list of its UTF-16 code units;
    - [Date.now()] is an explicit argument of every handler that reads the
      clock (milliseconds, an integer);
    - a React state setter called with an updater function is the
      application of that function to the state record;
    - exceptions are an explicit [Threw] result;
    - an [async] function is cut at its [await]: the part before it returns
      what it is waiting for, the part after it is a function of the
      outcome of the awaited call. *)

From Stdlib Require Import ZArith NArith List Bool Lia String Ascii DecimalString.
From Stdlib Require DecimalZ.
From stdpp Require Import base list.
Import ListNotations.

Set Default Proof Using "Type".

(** ** JavaScript strings *)

Module JS.

Abbreviation jsstring := (list N).

(** An ASCII-only source literal as code units. *)
Definition lit (s : string) : jsstring :=
  List.map N_of_ascii (list_ascii_of_string s).

Fixpoint streq (a b : jsstring) : bool :=
  match a, b with
  | [], [] => true
  | x :: a', y :: b' => N.eqb x y && streq a' b'
  | _, _ => false
  end.

(** ECMAScript [WhiteSpace] and [LineTerminator] code points; [trim] and the
    regular expression class [\s] use their union, [.] excludes the line
    terminators. *)
Definition isWhiteSpace (c : N) : bool :=
  (N.eqb c 9 || N.eqb c 11 || N.eqb c 12 || N.eqb c 32 || N.eqb c 160
   || N.eqb c 5760 || (N.leb 8192 c && N.leb c 8202) || N.eqb c 8239
   || N.eqb c 8287 || N.eqb c 12288 || N.eqb c 65279)%bool.

Definition isLineTerminator (c : N) : bool :=
  (N.eqb c 10 || N.eqb c 13 || N.eqb c 8232 || N.eqb c 8233)%bool.

Definition isSpace (c : N) : bool := isWhiteSpace c || isLineTerminator c.

Definition isDot (c : N) : bool := negb (isLineTerminator c).

Fixpoint trimStart (s : jsstring) : jsstring :=
  match s with
  | c :: s' => if isSpace c then trimStart s' else s
  | [] => []
  end.

Definition trimEnd (s : jsstring) : jsstring := rev (trimStart (rev s)).

(** [s.trim()] *)
Definition trim (s : jsstring) : jsstring := trimEnd (trimStart s).

(** Truthiness of a string: only the empty string is falsy. *)
Definition truthyStr (s : jsstring) : bool :=
  match s with [] => false | _ :: _ => true end.

(** [s.startsWith(p)] *)
Fixpoint startsWith (s p : jsstring) {struct p} : bool :=
  match p with
  | [] => true
  | a :: p' =>
      match s with
      | [] => false
      | b :: s' => N.eqb b a && startsWith s' p'
      end
  end.

(** [s.indexOf(p)], [None] for -1. *)
Fixpoint indexOf (s p : jsstring) {struct s} : option nat :=
  if startsWith s p then Some 0%nat
  else match s with
       | [] => None
       | _ :: s' => S <$> indexOf s' p
       end.

(** [s.replace(pat, rep)] with a string pattern: the first occurrence only.
    The replacement is taken literally (the source passes [''], which holds
    no [$] pattern). *)
Definition replace (s pat rep : jsstring) : jsstring :=
  match indexOf s pat with
  | Some i => take i s ++ rep ++ drop (i + length pat) s
  | None => s
  end.

(** [n.toString()] for an integer. *)
Definition toString (n : Z) : jsstring :=
  lit (NilEmpty.string_of_int (Z.to_int n)).

End JS.

(** ** The regular expressions of the source

    A backtracking matcher for the constructs the two regular expressions
    of [handleSendMessage] use: literal characters, a greedy star over a
    one-character class, one level of capture groups, [^] and [$] (no [m]
    flag). *)

Module Regex.
Import JS.

Inductive node : Type :=
| Bol                       (* ^ *)
| Eol                       (* $ *)
| Char (c : N)              (* a literal code unit *)
| Star (cls : N -> bool)    (* X* for a class X, greedy *)
| Open                      (* ( *)
| Close.                    (* ) *)

Abbreviation regex := (list node).

Definition literal (s : jsstring) : regex := List.map Char s.

(** [substring whole a b]: the code units from index [a] up to [b]. *)
Definition substring (whole : jsstring) (a b : nat) : jsstring :=
  take (b - a) (drop a whole).

(** The greedy star: take one more character of the class if possible and
    fall back to the continuation at the current position when the rest of
    the pattern fails further on. *)
Fixpoint star {R : Type} (cls : N -> bool) (k : nat -> jsstring -> option R)
    (pos : nat) (rest : jsstring) : option R :=
  match rest with
  | x :: rest' =>
      if cls x then
        match star cls k (S pos) rest' with
        | Some r => Some r
        | None => k pos rest
        end
      else k pos rest
  | [] => k pos rest
  end.

(** [exec whole r pos rest opened caps]: match [r] at index [pos] of [whole]
    ([rest] is what is left of the input there); the result is the end index
    of the match and the captures, in order. *)
Fixpoint exec (whole : jsstring) (r : regex) (pos : nat) (rest : jsstring)
    (opened : nat) (caps : list jsstring) : option (nat * list jsstring) :=
  match r with
  | [] => Some (pos, caps)
  | Bol :: r' =>
      if Nat.eqb pos 0 then exec whole r' pos rest opened caps else None
  | Eol :: r' =>
      match rest with
      | [] => exec whole r' pos rest opened caps
      | _ :: _ => None
      end
  | Char c :: r' =>
      match rest with
      | x :: rest' =>
          if N.eqb x c then exec whole r' (S pos) rest' opened caps else None
      | [] => None
      end
  | Star cls :: r' =>
      star cls (fun pos' rest' => exec whole r' pos' rest' opened caps) pos rest
  | Open :: r' => exec whole r' pos rest pos caps
  | Close :: r' =>
      exec whole r' pos rest opened (caps ++ [substring whole opened pos])
  end.

(** The search of a regular expression without the [g] flag: the first
    index at which it matches. The result is the match array: the matched
    text, then the captures. *)
Fixpoint search (whole : jsstring) (r : regex) (pos : nat) (rest : jsstring)
    : option (list jsstring) :=
  match exec whole r pos rest pos [] with
  | Some (e, caps) => Some (substring whole pos e :: caps)
  | None =>
      match rest with
      | [] => None
      | _ :: rest' => search whole r (S pos) rest'
      end
  end.

(** [s.match(r)] for [r] without the [g] flag. *)
Definition match_ (s : jsstring) (r : regex) : option (list jsstring) :=
  search s r 0 s.

(** [s.replace(r, rep)] for [r] with the [g] flag: every match, left to
    right and without overlap, is replaced; after an empty match the search
    resumes one code unit further. [skip] counts the code units of the
    current match still to be dropped. *)
Fixpoint replaceLoop (whole : jsstring) (r : regex) (rep : jsstring)
    (skip pos : nat) (rest : jsstring) : jsstring :=
  match rest with
  | [] =>
      match skip with
      | S _ => []
      | O => match exec whole r pos [] pos [] with
             | Some _ => rep
             | None => []
             end
      end
  | c :: rest' =>
      match skip with
      | S k => replaceLoop whole r rep k (S pos) rest'
      | O =>
          match exec whole r pos rest pos [] with
          | Some (e, _) =>
              if Nat.eqb e pos
              then rep ++ c :: replaceLoop whole r rep 0 (S pos) rest'
              else rep ++ replaceLoop whole r rep (e - pos - 1) (S pos) rest'
          | None => c :: replaceLoop whole r rep 0 (S pos) rest'
          end
      end
  end.

Definition replaceAll (s : jsstring) (r : regex) (rep : jsstring) : jsstring :=
  replaceLoop s r rep 0 0 s.

End Regex.

(** ** Values, exceptions and the types of [src/types.ts] *)

(** A JavaScript value as far as [JSON.parse] and property access produce
    them. A number is kept as an integer: the code only tests whether it is
    zero. *)
#[local] Unset Elimination Schemes.
Inductive JsValue : Type :=
| VUndefined
| VNull
| VBool (b : bool)
| VNum (n : Z)
| VStr (s : JS.jsstring)
| VArr (items : list JsValue)
| VObj (props : list (JS.jsstring * JsValue)).
#[local] Set Elimination Schemes.

(** The outcome of evaluating something that may throw (or, for a promise,
    reject). *)
Inductive Completion (A : Type) : Type :=
| Returned (a : A)
| Threw.
Arguments Returned {A} a.
Arguments Threw {A}.

Module Value.
Import JS.

Definition truthy (v : JsValue) : bool :=
  match v with
  | VUndefined | VNull => false
  | VBool b => b
  | VNum n => negb (Z.eqb n 0)
  | VStr s => truthyStr s
  | VArr _ | VObj _ => true
  end.

(** [a || b] *)
Definition or (a b : JsValue) : JsValue := if truthy a then a else b.

Fixpoint assoc (key : jsstring) (props : list (jsstring * JsValue))
    : option JsValue :=
  match props with
  | [] => None
  | (k, v) :: props' => if streq k key then Some v else assoc key props'
  end.

(** The property [key] of [v], for a [key] that is neither an index nor the
    name of a built-in property ([choices], [message], [content]): only an
    object has it, when it was parsed with that key. *)
Definition ownNamed (v : JsValue) (key : jsstring) : option JsValue :=
  match v with
  | VObj props => assoc key props
  | _ => None
  end.

(** The property [i] of [v] for an index [i]: an element of an array, a
    code unit of a string, the property named by the decimal of [i] of an
    object. *)
Definition ownIndex (v : JsValue) (i : nat) : option JsValue :=
  match v with
  | VArr items => items !! i
  | VStr s => (fun c => VStr [c]) <$> s !! i
  | VObj props => assoc (toString (Z.of_nat i)) props
  | _ => None
  end.

Definition isNullish (v : JsValue) : bool :=
  match v with
  | VUndefined | VNull => true
  | _ => false
  end.

(** [v.key]: a [TypeError] on [null] and [undefined]. *)
Definition getNamed (v : JsValue) (key : jsstring) : Completion JsValue :=
  if isNullish v then Threw
  else Returned (default VUndefined (ownNamed v key)).

(** [v?.key] *)
Definition optNamed (v : JsValue) (key : jsstring) : JsValue :=
  if isNullish v then VUndefined else default VUndefined (ownNamed v key).

(** [v?.[i]] *)
Definition optIndex (v : JsValue) (i : nat) : JsValue :=
  if isNullish v then VUndefined else default VUndefined (ownIndex v i).

End Value.

Inductive MessageType : Type := TEXT | VIDEO | SYSTEM.

Module User.
Record t : Type := mk {
  id : JS.jsstring;
  nickname : JS.jsstring;
  avatar : JS.jsstring;
  isOnline : bool;
  lastSeen : option Z
}.

(** [{ ...user, lastSeen: now }] *)
Definition withLastSeen (user : t) (now : Z) : t :=
  {| id := id user; nickname := nickname user; avatar := avatar user;
     isOnline := isOnline user; lastSeen := Some now |}.

(** [u.lastSeen || 0] *)
Definition lastSeenOr0 (u : t) : Z :=
  match lastSeen u with
  | Some t => if Z.eqb t 0 then 0%Z else t
  | None => 0%Z
  end.
End User.

Module Message.
(** [content] is typed [string] in the source; the assistant's reply is put
    there as it came out of the parsed response body, so the field holds a
    value. *)
Record t : Type := mk {
  id : JS.jsstring;
  senderId : JS.jsstring;
  senderName : JS.jsstring;
  avatar : JS.jsstring;
  content : JsValue;
  type : MessageType;
  timestamp : Z;
  videoUrl : option JS.jsstring;
  isAi : option bool
}.
End Message.

Module ServerConfig.
Record t : Type := mk {
  id : JS.jsstring;
  name : JS.jsstring;
  address : JS.jsstring
}.
End ServerConfig.

(** The messages of the broadcast channel. *)
Inductive Envelope : Type :=
| REQUEST_USERS (requesterId : JS.jsstring)
| USER_JOIN (user : User.t)
| HEARTBEAT (user : User.t)
| NEW_MESSAGE (message : Message.t).

(** ** [src/constants.ts] *)

Module Constants.
Import JS.
Open Scope string_scope.

Module AI_CONFIG.
Definition BASE_URL : jsstring := lit "https://api.siliconflow.cn/v1/chat/completions".
Definition MODEL : jsstring := lit "Qwen/Qwen2.5-7B-Instruct".
Definition BOT_NAME : jsstring := [24029; 23567; 20892]%N.
Definition BOT_AVATAR : jsstring := lit "https://picsum.photos/id/64/200/200".
End AI_CONFIG.

Module MOVIE_BOT_CONFIG.
Definition NAME : jsstring := [30005; 24433; 21161; 25163]%N.
Definition AVATAR : jsstring := lit "https://picsum.photos/id/452/200/200".
End MOVIE_BOT_CONFIG.

Definition VIDEO_PARSER_URL : jsstring := lit "https://jx.xmflv.com/?url=".

Definition BROADCAST_CHANNEL_NAME : jsstring := lit "daip_chat_channel".

Definition SERVER_LIST : list ServerConfig.t :=
  [ ServerConfig.mk (lit "srv-1")
      [20027; 26381; 21153; 22120; 32; 40; 77; 97; 105; 110; 41]%N
      (lit "192.168.1.100:3000");
    ServerConfig.mk (lit "srv-2")
      [22791; 29992; 26381; 21153; 22120; 32; 40; 66; 97; 99; 107; 117; 112; 41]%N
      (lit "192.168.1.101:3000");
    ServerConfig.mk (lit "srv-3")
      [27979; 35797; 33410; 28857; 32; 40; 84; 101; 115; 116; 41]%N
      (lit "127.0.0.1:8080") ].

End Constants.

(** ** [src/services/aiService.ts] *)

Module AiService.
Import JS Value Constants.
Open Scope string_scope.

(** What the network does with the request: [fetch] rejects, or resolves to
    a response with its [ok] flag and what [response.json()] gives ([None]
    when it rejects because the body is not JSON). *)
Inductive FetchOutcome : Type :=
| FetchRejected
| Response (ok : bool) (json : option JsValue).

(** The fixed strings returned in place of an answer. *)
Definition API_ERROR : jsstring :=
  [24029; 23567; 20892; 29616; 22312; 26377; 28857; 26197; 65292; 35831;
   31245; 21518; 20877; 35797; 46; 46; 46; 32; 40; 65; 80; 73; 32; 69; 114;
   114; 111; 114; 41]%N.
Definition NOTHING_TO_SAY : jsstring :=
  [24029; 23567; 20892; 19981; 30693; 36947; 35813; 35828; 20160; 20040; 46;
   46; 46]%N.
Definition NETWORK_ERROR : jsstring :=
  [32593; 32476; 36830; 25509; 20284; 20046; 26029; 24320; 20102; 46; 46;
   46]%N.

Definition SYSTEM_PERSONA : jsstring :=
  [20320; 26159; 8220; 24029; 23567; 20892; 8221; 65292; 68; 97; 105; 80;
   26234; 33021; 32842; 22825; 23460; 30340; 65; 73; 21161; 25163; 12290;
   35831; 29992; 24189; 40664; 12289; 31616; 30701; 30340; 39118; 26684;
   22238; 31572; 29992; 25143; 30340; 38382; 39064; 12290]%N.

Definition payload (userMessage : jsstring) : JsValue :=
  VObj [ (lit "model", VStr AI_CONFIG.MODEL);
         (lit "messages",
          VArr [ VObj [ (lit "role", VStr (lit "system"));
                        (lit "content", VStr SYSTEM_PERSONA) ];
                 VObj [ (lit "role", VStr (lit "user"));
                        (lit "content", VStr userMessage) ] ]);
         (lit "stream", VBool false) ].

(** [await fetch(...)] *)
Definition awaitFetch (net : FetchOutcome) : Completion (bool * option JsValue) :=
  match net with
  | FetchRejected => Threw
  | Response ok json => Returned (ok, json)
  end.

(** [await response.json()] *)
Definition awaitJson (json : option JsValue) : Completion JsValue :=
  match json with
  | Some data => Returned data
  | None => Threw
  end.

(** The body of the [try] block. *)
Definition tryBlock (userMessage : jsstring) (net : FetchOutcome)
    : Completion JsValue :=
  match awaitFetch net with
  | Threw => Threw
  | Returned (ok, json) =>
      if negb ok then
        match awaitJson json with
        | Threw => Threw
        | Returned errorData => Returned (VStr API_ERROR)
        end
      else
        match awaitJson json with
        | Threw => Threw
        | Returned data =>
            match getNamed data (lit "choices") with
            | Threw => Threw
            | Returned choices =>
                Returned
                  (or (optNamed (optNamed (optIndex choices 0) (lit "message"))
                         (lit "content"))
                      (VStr NOTHING_TO_SAY))
            end
        end
  end.

(** [sendMessageToAi]: the [try] block under its [catch]. *)
Definition sendMessageToAi (userMessage : jsstring) (net : FetchOutcome)
    : Completion JsValue :=
  match tryBlock userMessage net with
  | Returned answer => Returned answer
  | Threw => Returned (VStr NETWORK_ERROR)
  end.

(** The three fallback strings. *)
Definition fallbacks : list JsValue :=
  [VStr API_ERROR; VStr NOTHING_TO_SAY; VStr NETWORK_ERROR].

(** The value at [choices[0].message.content] of a response body, when every
    step of that path exists. *)
Definition contentPath (data : JsValue) : option JsValue :=
  choices ← ownNamed data (lit "choices");
  first ← ownIndex choices 0;
  message ← ownNamed first (lit "message");
  ownNamed message (lit "content").

End AiService.

(** ** [ChatRoom] in [src/App.tsx] *)

Module ChatRoom.
Import JS Value Regex Constants.
Open Scope string_scope.
Open Scope list_scope.

(** The component's state: its [useState] cells and the broadcast channel
    held in [channelRef]. [posted] lists what [postMessage] handed to the
    channel, oldest first; [channelClosed] is set by the effect's cleanup
    ([channelRef.current?.close()]). *)
Record State : Type := mkState {
  messages : list Message.t;
  inputText : jsstring;
  onlineUsers : list User.t;
  showEmojiPicker : bool;
  isAiThinking : bool;
  channelClosed : bool;
  posted : list Envelope
}.

(** A handler: a state transformer that may throw. *)
Definition M (A : Type) : Type := State -> Completion A * State.

Definition ret {A : Type} (a : A) : M A := fun st => (Returned a, st).

Definition bind {A B : Type} (m : M A) (k : A -> M B) : M B :=
  fun st =>
    match m st with
    | (Returned a, st') => k a st'
    | (Threw, st') => (Threw, st')
    end.

Declare Scope handler_scope.
Delimit Scope handler_scope with handler.
Notation "x <- m ;; k" := (bind m (fun x => k))
  (at level 100, m at next level, right associativity) : handler_scope.
Notation "m ;; k" := (bind m (fun _ => k))
  (at level 100, right associativity) : handler_scope.
Open Scope handler_scope.

(** [await p] for a promise that settles as [c]. *)
Definition await {A : Type} (c : Completion A) : M A := fun st => (c, st).

(** [try { block } finally { finalizer }] *)
Definition tryFinally {A : Type} (block : M A) (finalizer : M unit) : M A :=
  fun st =>
    let '(r, st1) := block st in
    match finalizer st1 with
    | (Returned _, st2) => (r, st2)
    | (Threw, st2) => (Threw, st2)
    end.

Definition setMessages (f : list Message.t -> list Message.t) : M unit :=
  fun st =>
    (Returned tt,
     {| messages := f (messages st); inputText := inputText st;
        onlineUsers := onlineUsers st; showEmojiPicker := showEmojiPicker st;
        isAiThinking := isAiThinking st; channelClosed := channelClosed st;
        posted := posted st |}).

Definition setInputText (text : jsstring) : M unit :=
  fun st =>
    (Returned tt,
     {| messages := messages st; inputText := text;
        onlineUsers := onlineUsers st; showEmojiPicker := showEmojiPicker st;
        isAiThinking := isAiThinking st; channelClosed := channelClosed st;
        posted := posted st |}).

Definition setOnlineUsers (f : list User.t -> list User.t) : M unit :=
  fun st =>
    (Returned tt,
     {| messages := messages st; inputText := inputText st;
        onlineUsers := f (onlineUsers st); showEmojiPicker := showEmojiPicker st;
        isAiThinking := isAiThinking st; channelClosed := channelClosed st;
        posted := posted st |}).

Definition setShowEmojiPicker (b : bool) : M unit :=
  fun st =>
    (Returned tt,
     {| messages := messages st; inputText := inputText st;
        onlineUsers := onlineUsers st; showEmojiPicker := b;
        isAiThinking := isAiThinking st; channelClosed := channelClosed st;
        posted := posted st |}).

Definition setIsAiThinking (b : bool) : M unit :=
  fun st =>
    (Returned tt,
     {| messages := messages st; inputText := inputText st;
        onlineUsers := onlineUsers st; showEmojiPicker := showEmojiPicker st;
        isAiThinking := b; channelClosed := channelClosed st;
        posted := posted st |}).

(** [channelRef.current?.postMessage(data)]: an [InvalidStateError] once
    the channel is closed. *)
Definition postMessage (data : Envelope) : M unit :=
  fun st =>
    if channelClosed st then (Threw, st)
    else
      (Returned tt,
       {| messages := messages st; inputText := inputText st;
          onlineUsers := onlineUsers st; showEmojiPicker := showEmojiPicker st;
          isAiThinking := isAiThinking st; channelClosed := channelClosed st;
          posted := posted st ++ [data] |}).

(** [channelRef.current?.close()] *)
Definition close : M unit :=
  fun st =>
    (Returned tt,
     {| messages := messages st; inputText := inputText st;
        onlineUsers := onlineUsers st; showEmojiPicker := showEmojiPicker st;
        isAiThinking := isAiThinking st; channelClosed := true;
        posted := posted st |}).

(** [channelRef.current = new BroadcastChannel(channelName)] *)
Definition openChannel : M unit :=
  fun st =>
    (Returned tt,
     {| messages := messages st; inputText := inputText st;
        onlineUsers := onlineUsers st; showEmojiPicker := showEmojiPicker st;
        isAiThinking := isAiThinking st; channelClosed := false;
        posted := posted st |}).

(** The [useState] initial values. *)
Definition initial (currentUser : User.t) : State :=
  {| messages := []; inputText := []; onlineUsers := [currentUser];
     showEmojiPicker := false; isAiThinking := false; channelClosed := false;
     posted := [] |}.

Definition channelName (serverConfig : ServerConfig.t) : jsstring :=
  BROADCAST_CHANNEL_NAME ++ lit "_" ++ ServerConfig.id serverConfig.

(** *** Presence *)

Definition HEARTBEAT_PERIOD : Z := 1000.
Definition CLEANUP_PERIOD : Z := 2000.
Definition TTL : Z := 3000.

(** [prev.findIndex(p)], [None] for -1. *)
Fixpoint findIndex {A : Type} (p : A -> bool) (l : list A) : option nat :=
  match l with
  | [] => None
  | x :: l' => if p x then Some 0%nat else S <$> findIndex p l'
  end.

(** The updater of [setOnlineUsers] in the [USER_JOIN]/[HEARTBEAT] branch of
    [onmessage]. *)
Definition receiveUser (now : Z) (user : User.t) (prev : list User.t)
    : list User.t :=
  match findIndex (fun u => streq (User.id u) (User.id user)) prev with
  | Some existingIndex => <[existingIndex := User.withLastSeen user now]> prev
  | None => prev ++ [User.withLastSeen user now]
  end.

Definition onmessage (now : Z) (data : Envelope) : M unit :=
  match data with
  | NEW_MESSAGE message => setMessages (fun prev => prev ++ [message])
  | USER_JOIN user | HEARTBEAT user => setOnlineUsers (receiveUser now user)
  | REQUEST_USERS _ => ret tt
  end.

(** The callback of [heartbeatInterval]. *)
Definition heartbeat (currentUser : User.t) (now : Z) : M unit :=
  postMessage (HEARTBEAT (User.withLastSeen currentUser now)).

(** The predicate of the [filter] in the callback of [cleanupInterval]. *)
Definition keep (currentUser : User.t) (now : Z) (u : User.t) : bool :=
  if streq (User.id u) (User.id currentUser) then true
  else Z.ltb (now - User.lastSeenOr0 u) 3000.

Definition cleanup (currentUser : User.t) (now : Z) (prev : list User.t)
    : list User.t :=
  List.filter (keep currentUser now) prev.

Definition cleanupTick (currentUser : User.t) (now : Z) : M unit :=
  setOnlineUsers (cleanup currentUser now).

(** The effects run on mount: the join announcement and the welcome
    message. *)
Definition welcomeMsg (currentUser : User.t) (serverConfig : ServerConfig.t)
    (now : Z) : Message.t :=
  {| Message.id := lit "system-welcome";
     Message.senderId := lit "system";
     Message.senderName := [31995; 32479]%N;
     Message.avatar := [];
     Message.content :=
       VStr ([27426; 36814; 32]%N ++ User.nickname currentUser
             ++ [32; 21152; 20837; 32; 91]%N ++ ServerConfig.name serverConfig
             ++ [93; 65281]%N);
     Message.type := SYSTEM;
     Message.timestamp := now;
     Message.videoUrl := None;
     Message.isAi := None |}.

Definition mount (currentUser : User.t) (serverConfig : ServerConfig.t)
    (now : Z) : M unit :=
  openChannel ;;
  postMessage (USER_JOIN currentUser) ;;
  setMessages (fun _ => [welcomeMsg currentUser serverConfig now]).

(** The cleanup of the network effect (the two [clearInterval] calls stop
    the ticks; the channel is closed). *)
Definition unmount : M unit := close.

(** *** Sending and the bots *)

(** The command strings, which are literals in [handleSendMessage]. *)
Record Commands : Type := mkCommands {
  moviePrefix : jsstring;
  playFiller : jsstring;
  aiPrefix : jsstring;
  defaultQuery : jsstring
}.

Definition sourceCommands : Commands :=
  {| moviePrefix := [64; 30005; 24433]%N;
     playFiller := [25773; 25918]%N;
     aiPrefix := [64; 24029; 23567; 20892]%N;
     defaultQuery := [20320; 22909]%N |}.

(** The assistant pattern: [^], the prefix, [\s*], a group capturing [.*]
    (written [( .* )] here), [$]. *)
Definition aiRegex (cmds : Commands) : regex :=
  [Bol] ++ literal (aiPrefix cmds) ++ [Star isSpace; Open; Star isDot; Close; Eol].

(** [/<playFiller>/g] *)
Definition fillerRegex (cmds : Commands) : regex := literal (playFiller cmds).

(** What [handleSendMessage] leaves behind when it returns or suspends. *)
Inductive Pending : Type :=
| Finished
| MovieTimer (delay : Z) (rawUrl : jsstring)   (* [setTimeout(..., delay)] *)
| AwaitingAi (query : jsstring).               (* [await sendMessageToAi(query)] *)

Definition MOVIE_DELAY : Z := 600.

Definition userMessage (currentUser : User.t) (rawContent : jsstring)
    (t_id t_ts : Z) : Message.t :=
  {| Message.id := toString t_id;
     Message.senderId := User.id currentUser;
     Message.senderName := User.nickname currentUser;
     Message.avatar := User.avatar currentUser;
     Message.content := VStr rawContent;
     Message.type := TEXT;
     Message.timestamp := t_ts;
     Message.videoUrl := None;
     Message.isAi := None |}.

Definition movieBotMsg (rawUrl : jsstring) (t_id t_ts : Z) : Message.t :=
  {| Message.id := toString t_id ++ lit "-movie";
     Message.senderId := lit "movie-bot";
     Message.senderName := MOVIE_BOT_CONFIG.NAME;
     Message.avatar := MOVIE_BOT_CONFIG.AVATAR;
     Message.content := VStr ([20026; 24744; 25773; 25918; 58; 32]%N ++ rawUrl);
     Message.type := VIDEO;
     Message.timestamp := t_ts;
     Message.videoUrl := Some (VIDEO_PARSER_URL ++ rawUrl);
     Message.isAi := Some true |}.

Definition aiMessage (aiResponseText : JsValue) (t_id t_ts : Z) : Message.t :=
  {| Message.id := toString t_id ++ lit "-ai";
     Message.senderId := lit "ai-bot";
     Message.senderName := AI_CONFIG.BOT_NAME;
     Message.avatar := AI_CONFIG.BOT_AVATAR;
     Message.content := aiResponseText;
     Message.type := TEXT;
     Message.timestamp := t_ts;
     Message.videoUrl := None;
     Message.isAi := Some true |}.

(** The target of a movie command:
    [rawContent.replace(prefix, '').replace(/filler/g, '').trim()]. *)
Definition movieTarget (cmds : Commands) (rawContent : jsstring) : jsstring :=
  trim (replaceAll (replace rawContent (moviePrefix cmds) []) (fillerRegex cmds) []).

(** [aiMatch[1] || default] *)
Definition aiQuery (cmds : Commands) (aiMatch : list jsstring) : jsstring :=
  let capture := nth 1 aiMatch [] in
  if truthyStr capture then capture else defaultQuery cmds.

(** [handleSendMessage] up to its [return] or its [await]. [t_id] and [t_ts]
    are the two readings of [Date.now()]. *)
Definition handleSendMessageWith (cmds : Commands) (currentUser : User.t)
    (t_id t_ts : Z) : M Pending :=
  fun st =>
    if negb (truthyStr (trim (inputText st))) then (Returned Finished, st)
    else
      let rawContent := trim (inputText st) in
      let newMessage := userMessage currentUser rawContent t_id t_ts in
      (setMessages (fun prev => prev ++ [newMessage]) ;;
       postMessage (NEW_MESSAGE newMessage) ;;
       setInputText [] ;;
       setShowEmojiPicker false ;;
       if startsWith rawContent (moviePrefix cmds) then
         let rawUrl := movieTarget cmds rawContent in
         if truthyStr rawUrl then ret (MovieTimer MOVIE_DELAY rawUrl)
         else ret Finished
       else
         match match_ rawContent (aiRegex cmds) with
         | Some aiMatch =>
             setIsAiThinking true ;;
             ret (AwaitingAi (aiQuery cmds aiMatch))
         | None => ret Finished
         end) st.

Definition handleSendMessage : User.t -> Z -> Z -> M Pending :=
  handleSendMessageWith sourceCommands.

(** The callback given to [setTimeout] by the movie branch. *)
Definition movieTimerCallback (rawUrl : jsstring) (t_id t_ts : Z) : M unit :=
  setMessages (fun prev => prev ++ [movieBotMsg rawUrl t_id t_ts]) ;;
  postMessage (NEW_MESSAGE (movieBotMsg rawUrl t_id t_ts)).

(** [handleSendMessage] from its [await] on: the [try] block receives the
    outcome of [sendMessageToAi(query)], the [finally] block follows. *)
Definition handleSendMessageResume (query : jsstring)
    (net : AiService.FetchOutcome) (t_id t_ts : Z) : M unit :=
  tryFinally
    (aiResponseText <- await (AiService.sendMessageToAi query net) ;;
     setMessages (fun prev => prev ++ [aiMessage aiResponseText t_id t_ts]) ;;
     postMessage (NEW_MESSAGE (aiMessage aiResponseText t_id t_ts)))
    (setIsAiThinking false).

(** *** The session as a transition system *)

Inductive Event : Type :=
| Receive (now : Z) (data : Envelope)
| HeartbeatTick (now : Z)
| CleanupTick (now : Z)
| Input (text : jsstring)
| Send (t_id t_ts : Z)
| MovieReply (rawUrl : jsstring) (t_id t_ts : Z)
| AiReply (query : jsstring) (net : AiService.FetchOutcome) (t_id t_ts : Z)
| Unmount
| Mount (serverConfig : ServerConfig.t) (now : Z).

(** The state after an event; what a handler throws is lost to the event
    loop. *)
Definition step (currentUser : User.t) (ev : Event) (st : State) : State :=
  match ev with
  | Receive now data => snd (onmessage now data st)
  | HeartbeatTick now => snd (heartbeat currentUser now st)
  | CleanupTick now => snd (cleanupTick currentUser now st)
  | Input text => snd (setInputText text st)
  | Send t_id t_ts => snd (handleSendMessage currentUser t_id t_ts st)
  | MovieReply rawUrl t_id t_ts => snd (movieTimerCallback rawUrl t_id t_ts st)
  | AiReply query net t_id t_ts =>
      snd (handleSendMessageResume query net t_id t_ts st)
  | Unmount => snd (unmount st)
  | Mount serverConfig now => snd (mount currentUser serverConfig now st)
  end.

Definition run (currentUser : User.t) (evs : list Event) (st : State) : State :=
  fold_left (fun st ev => step currentUser ev st) evs st.

End ChatRoom.

(** ** The two commands in the words of the specification *)

Module Spec.
Import JS ChatRoom.

Fixpoint removeFrom (token : jsstring) (skip : nat) (s : jsstring) : jsstring :=
  match s with
  | [] => []
  | c :: s' =>
      match skip with
      | S k => removeFrom token k s'
      | O =>
          if startsWith s token then removeFrom token (length token - 1) s'
          else c :: removeFrom token 0 s'
      end
  end.

(** The text without the occurrences of the token, taken out from left to
    right. *)
Definition removeToken (token s : jsstring) : jsstring :=
  match token with
  | [] => s
  | _ :: _ => removeFrom token 0 s
  end.

(** The target of a video command: the content with the prefix stripped,
    the filler token removed and white space trimmed. *)
Definition rawTarget (cmds : Commands) (content : jsstring) : jsstring :=
  trim (removeToken (playFiller cmds) (drop (length (moviePrefix cmds)) content)).

(** A reading of a content by the assistant pattern: the prefix, a run of
    white space, a run without line terminator up to the end. *)
Definition assistantParse (cmds : Commands) (content ws capture : jsstring)
    : Prop :=
  content = aiPrefix cmds ++ ws ++ capture
  /\ forallb isSpace ws = true
  /\ forallb isDot capture = true.

(** The trailing capture of a matching content. The white space before the
    group is matched greedily, so the capture is the one that does not start
    with white space. *)
Definition assistantCapture (cmds : Commands) (content capture : jsstring)
    : Prop :=
  exists ws, assistantParse cmds content ws capture
             /\ match capture with
                | c :: _ => isSpace c = false
                | [] => True
                end.

End Spec.

(** ** The rest of [ChatRoom]: the input helpers and what the view shows *)

Module ChatRoomView.
Import JS Value Constants ChatRoom.
Open Scope string_scope.
Open Scope list_scope.

(** [insertEmoji]: the updater [prev => prev + emoji] (the focus of the
    text area is left out). *)
Definition insertEmoji (emoji : jsstring) : M unit :=
  fun st => setInputText (inputText st ++ emoji) st.

(** [insertCommand]: the updater of its [setInputText] (the timer that
    moves the caret is left out). *)
Definition insertCommand (command : jsstring) : M unit :=
  fun st =>
    setInputText
      (if negb (truthyStr (inputText st)) then command ++ lit " "
       else trim (inputText st) ++ lit " " ++ command ++ lit " ") st.

(** [handleKeyDown] on a key event with its [key] and [shiftKey]. *)
Definition handleKeyDown (key : jsstring) (shiftKey : bool)
    (currentUser : User.t) (t_id t_ts : Z) : M Pending :=
  if streq key (lit "Enter") && negb shiftKey
  then handleSendMessage currentUser t_id t_ts
  else ret Finished.

(** The [disabled] attribute of the send button. *)
Definition sendDisabled (st : State) : bool :=
  negb (truthyStr (trim (inputText st))).

(** The two labels of the user list. *)
Definition ONLINE : jsstring := [22312; 32447]%N.
Definition ACTIVE : jsstring := [27963; 36291]%N.

(** The label under a user of the list, read at time [now]:
    [user.lastSeen && now - user.lastSeen < 2000] for another user. *)
Definition statusLabel (currentUser : User.t) (now : Z) (user : User.t)
    : jsstring :=
  if streq (User.id user) (User.id currentUser) then ONLINE
  else
    match User.lastSeen user with
    | Some seen =>
        if negb (Z.eqb seen 0) && Z.ltb (now - seen) 2000 then ACTIVE
        else ONLINE
    | None => ONLINE
    end.

Definition isMe (currentUser : User.t) (msg : Message.t) : bool :=
  streq (Message.senderId msg) (User.id currentUser).

Definition isAiBot (msg : Message.t) : bool :=
  streq (Message.senderId msg) (lit "ai-bot").

Definition isMovieBot (msg : Message.t) : bool :=
  streq (Message.senderId msg) (lit "movie-bot").

(** What a message of the transcript is rendered as: the centred line of a
    system message, the frame of a video with its source, or a paragraph. *)
Inductive Rendered : Type :=
| SystemLine (content : JsValue)
| VideoPlayer (caption : JsValue) (src : jsstring)
| TextBubble (content : JsValue).

Definition renderMessage (msg : Message.t) : Rendered :=
  match Message.type msg with
  | SYSTEM => SystemLine (Message.content msg)
  | VIDEO =>
      match Message.videoUrl msg with
      | Some url =>
          if truthyStr url then VideoPlayer (Message.content msg) url
          else TextBubble (Message.content msg)
      | None => TextBubble (Message.content msg)
      end
  | TEXT => TextBubble (Message.content msg)
  end.

End ChatRoomView.

(** ** [App] in [src/App.tsx] *)

Module App.
Import JS Constants.
Open Scope string_scope.
Open Scope list_scope.

Record State : Type := mkState {
  currentUser : option User.t;
  currentServer : option ServerConfig.t;
  existingNicknames : list jsstring
}.

Definition initial : State :=
  {| currentUser := None; currentServer := None; existingNicknames := [] |}.

(** [prev.includes(x)] on an array of strings. *)
Definition includes (prev : list jsstring) (x : jsstring) : bool :=
  existsb (fun y => streq y x) prev.

(** The updater of [setExistingNicknames]. *)
Definition addNickname (nickname : jsstring) (prev : list jsstring)
    : list jsstring :=
  if includes prev nickname then prev else prev ++ [nickname].

(** The listener on the channel named [BROADCAST_CHANNEL_NAME]. *)
Definition onmessage (data : Envelope) (st : State) : State :=
  match data with
  | HEARTBEAT user | USER_JOIN user =>
      {| currentUser := currentUser st; currentServer := currentServer st;
         existingNicknames :=
           addNickname (User.nickname user) (existingNicknames st) |}
  | _ => st
  end.

(** What the effect posts when the application mounts. *)
Definition mountRequest : Envelope := REQUEST_USERS (lit "guest").

(** The user built by [handleLogin]. [draw] stands for
    [Math.floor(Math.random() * 70)]; [t_id] and [t_seen] are the two
    readings of [Date.now()]. *)
Definition newUser (nickname : jsstring) (draw t_id t_seen : Z) : User.t :=
  {| User.id := toString t_id;
     User.nickname := nickname;
     User.avatar :=
       lit "https://picsum.photos/id/" ++ toString (draw + 1) ++ lit "/200/200";
     User.isOnline := true;
     User.lastSeen := Some t_seen |}.

Definition LOGIN_DELAY : Z := 500.

(** The callback of the timer armed by [handleLogin]. *)
Definition loginTimer (user : User.t) (server : ServerConfig.t) (st : State)
    : State :=
  {| currentUser := Some user; currentServer := Some server;
     existingNicknames := existingNicknames st |}.

Definition handleLogout (st : State) : State :=
  {| currentUser := None; currentServer := None;
     existingNicknames := existingNicknames st |}.

(** What [App] renders. *)
Inductive Screen : Type :=
| LoginScreen (existing : list jsstring)
| ChatRoomScreen (user : User.t) (server : ServerConfig.t).

Definition render (st : State) : Screen :=
  match currentUser st, currentServer st with
  | Some user, Some server => ChatRoomScreen user server
  | _, _ => LoginScreen (existingNicknames st)
  end.

(** The listener over a sequence of received envelopes. *)
Definition receiveAll (datas : list Envelope) (st : State) : State :=
  fold_left (fun st data => onmessage data st) datas st.

End App.

(** ** [Login] in [src/App.tsx] *)

Module Login.
Import JS Constants.
Open Scope string_scope.
Open Scope list_scope.

Record State : Type := mkState {
  nickname : jsstring;
  selectedServerId : jsstring;
  error : jsstring
}.

Definition firstServerId : jsstring :=
  match SERVER_LIST with
  | server :: _ => ServerConfig.id server
  | [] => []
  end.

Definition initial : State :=
  {| nickname := []; selectedServerId := firstServerId; error := [] |}.

Definition EMPTY_NICKNAME : jsstring :=
  [35831; 36755; 20837; 26165; 31216]%N.
Definition NICKNAME_TAKEN : jsstring :=
  [35813; 26165; 31216; 24050; 23384; 22312; 65292; 35831; 26356; 25442;
   19968; 20010]%N.

Definition setError (e : jsstring) (st : State) : State :=
  {| nickname := nickname st; selectedServerId := selectedServerId st;
     error := e |}.

(** [handleLogin] of the form: the state after it and the call of [onLogin]
    it makes, if any. *)
Definition handleLogin (existingNicknames : list jsstring) (st : State)
    : State * option (jsstring * ServerConfig.t) :=
  let st := setError [] st in
  if negb (truthyStr (trim (nickname st))) then (setError EMPTY_NICKNAME st, None)
  else if App.includes existingNicknames (trim (nickname st))
  then (setError NICKNAME_TAKEN st, None)
  else
    match find (fun s => streq (ServerConfig.id s) (selectedServerId st)) SERVER_LIST with
    | Some server => (st, Some (trim (nickname st), server))
    | None => (st, None)
    end.

End Login.

(** ** The handler of one render *)

Module Render.
Import JS Value Regex Constants ChatRoom.
Open Scope string_scope.
Open Scope list_scope.
Open Scope handler_scope.

(** [handleSendMessage] as the closure of one render: it reads the
    [inputText] of that render, [rendered], whatever the state cell holds
    when it is called; the setters act on the state at the time of the
    call. [handleSendMessageWith] on a state is this closure for the render
    of that state. *)
Definition handleSendMessageOf (cmds : Commands) (currentUser : User.t)
    (rendered : jsstring) (t_id t_ts : Z) : M Pending :=
  if negb (truthyStr (trim rendered)) then ret Finished
  else
    let rawContent := trim rendered in
    let newMessage := userMessage currentUser rawContent t_id t_ts in
    setMessages (fun prev => prev ++ [newMessage]) ;;
    postMessage (NEW_MESSAGE newMessage) ;;
    setInputText [] ;;
    setShowEmojiPicker false ;;
    if startsWith rawContent (moviePrefix cmds) then
      let rawUrl := movieTarget cmds rawContent in
      if truthyStr rawUrl then ret (MovieTimer MOVIE_DELAY rawUrl)
      else ret Finished
    else
      match match_ rawContent (aiRegex cmds) with
      | Some aiMatch =>
          setIsAiThinking true ;;
          ret (AwaitingAi (aiQuery cmds aiMatch))
      | None => ret Finished
      end.

End Render.

(** ** A mounted [ChatRoom] and the props [App] gives it *)

Module Session.
Import JS ChatRoom.
Open Scope list_scope.
Open Scope handler_scope.

Record t : Type := mk {
  currentUser : User.t;
  serverConfig : ServerConfig.t;
  room : State
}.

(** The component when the login timer of [App] has mounted it: the state
    cells are initialised from the props and the effects have run. *)
Definition mounted (user : User.t) (server : ServerConfig.t) (now : Z) : t :=
  {| currentUser := user; serverConfig := server;
     room := snd (mount user server now (initial user)) |}.

(** The effects run again when the props change: the cleanup of the
    network effect, the network effect for the new user, and the welcome
    effect when the nickname or the name of the server changed
    (dependencies [currentUser, channelName] and
    [currentUser.nickname, serverConfig.name]). *)
Definition rerunEffects (old : t) (user : User.t) (server : ServerConfig.t)
    (now : Z) : M unit :=
  unmount ;;
  openChannel ;;
  postMessage (USER_JOIN user) ;;
  if streq (User.nickname user) (User.nickname (currentUser old))
     && streq (ServerConfig.name server) (ServerConfig.name (serverConfig old))
  then ret tt
  else setMessages (fun _ => [welcomeMsg user server now]).

(** A login timer of [App] firing while the component is mounted
    ([setCurrentServer(server); setCurrentUser(newUser)], one render): the
    component stays, its props are replaced, its state cells are kept
    ([useState] reads its initial value on mount only). *)
Definition replaceProps (user : User.t) (server : ServerConfig.t) (now : Z)
    (s : t) : t :=
  {| currentUser := user; serverConfig := server;
     room := snd (rerunEffects s user server now (room s)) |}.

Inductive Event : Type :=
| Handle (ev : ChatRoom.Event)
| LoginTimer (user : User.t) (server : ServerConfig.t) (now : Z).

Definition step (ev : Event) (s : t) : t :=
  match ev with
  | Handle ev =>
      {| currentUser := currentUser s; serverConfig := serverConfig s;
         room := ChatRoom.step (currentUser s) ev (room s) |}
  | LoginTimer user server now => replaceProps user server now s
  end.

Definition run (evs : list Event) (s : t) : t :=
  fold_left (fun s ev => step ev s) evs s.

End Session.

(** ** Several tabs on the broadcast channels of the browser *)

Module Hub.
Import JS ChatRoom.
Open Scope list_scope.







End Hub.

(** * Properties *)

Import JS Value Regex Constants ChatRoom.

(** ** Strings *)

Lemma streq_true_iff (a b : jsstring) : streq a b = true <-> a = b.
Proof.
  revert b; induction a as [|x a IH]; intros [|y b]; simpl; split;
    try congruence; try done.
  - intros [Hxy Hab]%andb_prop. apply N.eqb_eq in Hxy.
    apply IH in Hab. by subst.
  - intros [= -> ->]. rewrite N.eqb_refl. simpl. by apply IH.
Qed.

Lemma streq_false_iff (a b : jsstring) : streq a b = false <-> a <> b.
Proof.
  destruct (streq a b) eqn:E; split; try done.
  - apply streq_true_iff in E. done.
  - intros _ ->. assert (streq b b = true) by by apply streq_true_iff.
    congruence.
Qed.

Lemma streq_refl (a : jsstring) : streq a a = true.
Proof. by apply streq_true_iff. Qed.

Lemma startsWith_app (p t : jsstring) : startsWith (p ++ t) p = true.
Proof. induction p as [|a p IH]; simpl; [done|]. by rewrite N.eqb_refl. Qed.

Lemma startsWith_true_iff (s p : jsstring) :
  startsWith s p = true <-> exists t, s = p ++ t.
Proof.
  split.
  - revert s; induction p as [|a p IH]; intros s H; simpl in *.
    + by exists s.
    + destruct s as [|b s]; [done|].
      apply andb_prop in H as [Hba H]. apply N.eqb_eq in Hba. subst b.
      destruct (IH _ H) as [t ->]. by exists t.
  - intros [t ->]. apply startsWith_app.
Qed.

Lemma startsWith_drop (s p : jsstring) :
  startsWith s p = true -> s = p ++ drop (length p) s.
Proof.
  intros [t ->]%startsWith_true_iff. by rewrite drop_app_length.
Qed.

Lemma indexOf_startsWith (s p : jsstring) :
  startsWith s p = true -> indexOf s p = Some 0%nat.
Proof. intros H. destruct s; simpl; by rewrite H. Qed.

(** Replacing the first occurrence of a prefix by nothing strips it. *)
Lemma replace_prefix (s p : jsstring) :
  startsWith s p = true -> replace s p [] = drop (length p) s.
Proof.
  intros H. unfold replace. by rewrite (indexOf_startsWith _ _ H).
Qed.

Lemma trimStart_nil_iff (s : jsstring) :
  trimStart s = [] <-> forallb isSpace s = true.
Proof.
  induction s as [|c s IH]; simpl; [done|].
  destruct (isSpace c); simpl; [done|]. split; intros; done.
Qed.

Lemma forallb_rev {A : Type} (f : A -> bool) (l : list A) :
  forallb f (rev l) = forallb f l.
Proof.
  induction l as [|x l IH]; simpl; [done|].
  rewrite forallb_app, IH. simpl. rewrite andb_true_r. apply andb_comm.
Qed.

Lemma trimStart_suffix (s : jsstring) :
  exists ws, s = ws ++ trimStart s /\ forallb isSpace ws = true.
Proof.
  induction s as [|c s (ws & Hs & Hws)]; simpl.
  - by exists [].
  - destruct (isSpace c) eqn:Hc.
    + exists (c :: ws). simpl. rewrite Hc, Hws. split; [by f_equal|done].
    + by exists [].
Qed.

(** A text that is empty or all white space trims to the empty string, and
    only such a text does. *)
Lemma trim_nil_iff (s : jsstring) :
  trim s = [] <-> forallb isSpace s = true.
Proof.
  unfold trim, trimEnd. split.
  - intros H. apply (f_equal (@rev N)) in H. rewrite rev_involutive in H.
    simpl in H. apply trimStart_nil_iff in H. rewrite forallb_rev in H.
    destruct (trimStart_suffix s) as (ws & Hs & Hws).
    rewrite Hs, forallb_app, Hws, H. done.
  - intros H. apply trimStart_nil_iff in H. by rewrite H.
Qed.

Lemma truthyStr_false_iff (s : jsstring) : truthyStr s = false <-> s = [].
Proof. by destruct s. Qed.

Lemma truthyStr_true_iff (s : jsstring) : truthyStr s = true <-> s <> [].
Proof. by destruct s. Qed.

(** ** Presence *)

Lemma findIndex_Some {A : Type} (p : A -> bool) (l : list A) (i : nat) :
  findIndex p l = Some i ->
  exists x, l !! i = Some x /\ p x = true /\
            forall j y, (j < i)%nat -> l !! j = Some y -> p y = false.
Proof.
  revert i; induction l as [|a l IH]; intros i H; simpl in H; [done|].
  destruct (p a) eqn:Hpa.
  - injection H as <-. exists a. repeat split; [done|]. intros j y Hj. lia.
  - destruct (findIndex p l) as [k|] eqn:Hk; [|done].
    injection H as <-. destruct (IH k eq_refl) as (x & Hx & Hpx & Hfirst).
    exists x. repeat split; [done..|].
    intros [|j] y Hj Hy; simpl in Hy.
    + by injection Hy as <-.
    + apply (Hfirst j); [lia|done].
Qed.

Lemma findIndex_None {A : Type} (p : A -> bool) (l : list A) :
  findIndex p l = None -> forall x, x ∈ l -> p x = false.
Proof.
  induction l as [|a l IH]; simpl; intros H x Hx.
  - by apply elem_of_nil in Hx.
  - destruct (p a) eqn:Hpa; [done|].
    destruct (findIndex p l) eqn:Hk; [done|].
    apply elem_of_cons in Hx as [->|Hx]; [done|]. by apply IH.
Qed.

Lemma findIndex_found {A : Type} (p : A -> bool) (l : list A) (x : A) :
  x ∈ l -> p x = true -> is_Some (findIndex p l).
Proof.
  intros Hx Hp. destruct (findIndex p l) eqn:E; [by eexists|].
  rewrite (findIndex_None _ _ E x Hx) in Hp. done.
Qed.

(** A user of a known id takes the place of the first entry of that id. *)
Lemma receiveUser_present (now : Z) (user : User.t) (prev : list User.t) :
  User.id user ∈ User.id <$> prev ->
  exists i old,
    prev !! i = Some old /\ User.id old = User.id user /\
    (forall j y, (j < i)%nat -> prev !! j = Some y -> User.id y <> User.id user) /\
    receiveUser now user prev = <[i := User.withLastSeen user now]> prev.
Proof.
  intros (old & Hid & Hold)%list_elem_of_fmap.
  assert (Hp : streq (User.id old) (User.id user) = true)
    by by apply streq_true_iff.
  destruct (findIndex_found (fun u => streq (User.id u) (User.id user)) _ _ Hold Hp)
    as [i Hi].
  destruct (findIndex_Some _ _ _ Hi) as (x & Hx & Hpx & Hfirst).
  exists i, x. unfold receiveUser. rewrite Hi. repeat split; [done| |].
  - by apply streq_true_iff.
  - intros j y Hj Hy. apply streq_false_iff. by apply (Hfirst j).
Qed.

Lemma receiveUser_absent (now : Z) (user : User.t) (prev : list User.t) :
  User.id user ∉ User.id <$> prev ->
  receiveUser now user prev = prev ++ [User.withLastSeen user now].
Proof.
  intros Hnot. unfold receiveUser.
  destruct (findIndex _ prev) as [i|] eqn:Hi; [|done].
  destruct (findIndex_Some _ _ _ Hi) as (x & Hx & Hpx & _).
  apply streq_true_iff in Hpx. destruct Hnot.
  apply list_elem_of_fmap. exists x. split; [done|].
  by apply list_elem_of_lookup_2 in Hx.
Qed.

(** Receiving a known user leaves the list of ids as it was. *)
Lemma receiveUser_ids_present (now : Z) (user : User.t) (prev : list User.t) :
  User.id user ∈ User.id <$> prev ->
  User.id <$> receiveUser now user prev = User.id <$> prev.
Proof.
  intros Hin. destruct (receiveUser_present now user prev Hin)
    as (i & old & Hold & Hid & _ & ->).
  rewrite list_fmap_insert. apply list_insert_id.
  rewrite list_lookup_fmap, Hold. simpl. by rewrite Hid.
Qed.

Lemma receiveUser_ids_absent (now : Z) (user : User.t) (prev : list User.t) :
  User.id user ∉ User.id <$> prev ->
  User.id <$> receiveUser now user prev = (User.id <$> prev) ++ [User.id user].
Proof.
  intros Hnot. rewrite (receiveUser_absent _ _ _ Hnot). by rewrite fmap_app.
Qed.

Lemma receiveUser_keeps_ids (now : Z) (user : User.t) (prev : list User.t)
    (i : jsstring) :
  i ∈ User.id <$> prev -> i ∈ User.id <$> receiveUser now user prev.
Proof.
  intros Hi. destruct (decide (User.id user ∈ User.id <$> prev)) as [Hin|Hnot].
  - by rewrite receiveUser_ids_present.
  - rewrite receiveUser_ids_absent by done. apply elem_of_app. by left.
Qed.

(** The ids of the presence list stay pairwise distinct. *)
Lemma receiveUser_NoDup (now : Z) (user : User.t) (prev : list User.t) :
  NoDup (User.id <$> prev) -> NoDup (User.id <$> receiveUser now user prev).
Proof.
  intros Hnd. destruct (decide (User.id user ∈ User.id <$> prev)) as [Hin|Hnot].
  - by rewrite receiveUser_ids_present.
  - rewrite receiveUser_ids_absent by done.
    apply NoDup_app. split; [done|]. split.
    + intros x Hx ->%list_elem_of_singleton. done.
    + apply NoDup_singleton.
Qed.

Lemma elem_of_cleanup (currentUser : User.t) (now : Z) (prev : list User.t)
    (u : User.t) :
  u ∈ cleanup currentUser now prev <-> u ∈ prev /\ keep currentUser now u = true.
Proof. unfold cleanup. rewrite !list_elem_of_In. apply filter_In. Qed.

Lemma cleanup_NoDup (currentUser : User.t) (now : Z) (prev : list User.t) :
  NoDup (User.id <$> prev) -> NoDup (User.id <$> cleanup currentUser now prev).
Proof.
  unfold cleanup. induction prev as [|a prev IH]; simpl; [done|].
  intros [Ha Hnd]%NoDup_cons. destruct (keep currentUser now a); simpl.
  - apply NoDup_cons. split; [|by apply IH].
    intros (x & Hid & Hx)%list_elem_of_fmap. apply Ha.
    apply list_elem_of_fmap. exists x. split; [done|].
    apply list_elem_of_In. apply list_elem_of_In in Hx.
    by apply filter_In in Hx as [Hx _].
  - by apply IH.
Qed.

Lemma keep_self (currentUser : User.t) (now : Z) (u : User.t) :
  User.id u = User.id currentUser -> keep currentUser now u = true.
Proof. intros H. unfold keep. by rewrite H, streq_refl. Qed.

Lemma keep_peer (currentUser : User.t) (now : Z) (u : User.t) :
  User.id u <> User.id currentUser ->
  keep currentUser now u = Z.ltb (now - User.lastSeenOr0 u) 3000.
Proof.
  intros H%streq_false_iff. unfold keep. by rewrite H.
Qed.

(** Unfolds a handler down to the state record it builds and splits on the
    tests met on the way. *)
Ltac run_handler :=
  unfold handleSendMessage, handleSendMessageWith, movieTimerCallback,
    handleSendMessageResume, heartbeat, cleanupTick, onmessage, unmount, mount,
    tryFinally, bind, ret, await, close, openChannel, postMessage, setMessages,
    setInputText, setOnlineUsers, setShowEmojiPicker, setIsAiThinking;
  simpl;
  repeat (case_match; simpl in *; simplify_eq);
  try done.

(** Only the two presence handlers write [onlineUsers]. *)
Lemma handleSendMessageWith_onlineUsers (cmds : Commands) (currentUser : User.t)
    (t_id t_ts : Z) (st : State) :
  onlineUsers (snd (handleSendMessageWith cmds currentUser t_id t_ts st))
  = onlineUsers st.
Proof. run_handler. Qed.

Lemma movieTimerCallback_onlineUsers (rawUrl : jsstring) (t_id t_ts : Z)
    (st : State) :
  onlineUsers (snd (movieTimerCallback rawUrl t_id t_ts st)) = onlineUsers st.
Proof. run_handler. Qed.

Lemma handleSendMessageResume_onlineUsers (query : jsstring)
    (net : AiService.FetchOutcome) (t_id t_ts : Z) (st : State) :
  onlineUsers (snd (handleSendMessageResume query net t_id t_ts st))
  = onlineUsers st.
Proof. run_handler. Qed.

Lemma step_onlineUsers (currentUser : User.t) (ev : Event) (st : State) :
  onlineUsers (step currentUser ev st) =
  match ev with
  | Receive now (USER_JOIN user) | Receive now (HEARTBEAT user) =>
      receiveUser now user (onlineUsers st)
  | CleanupTick now => cleanup currentUser now (onlineUsers st)
  | _ => onlineUsers st
  end.
Proof.
  destruct ev as [now [r|u|u|m]|now|now|text|t_id t_ts|rawUrl t_id t_ts
                 |query net t_id t_ts| |serverConfig now]; simpl; try done.
  - run_handler.
  - apply handleSendMessageWith_onlineUsers.
  - apply movieTimerCallback_onlineUsers.
  - apply handleSendMessageResume_onlineUsers.
Qed.

Lemma run_app (currentUser : User.t) (evs1 evs2 : list Event) (st : State) :
  run currentUser (evs1 ++ evs2) st
  = run currentUser evs2 (run currentUser evs1 st).
Proof. unfold run. apply fold_left_app. Qed.

Lemma step_keeps_self (currentUser : User.t) (ev : Event) (st : State) :
  User.id currentUser ∈ User.id <$> onlineUsers st ->
  User.id currentUser ∈ User.id <$> onlineUsers (step currentUser ev st).
Proof.
  intros Hin. rewrite step_onlineUsers.
  destruct ev as [now [r|u|u|m]|now|now|text|t_id t_ts|rawUrl t_id t_ts
                 |query net t_id t_ts| |serverConfig now]; try done.
  - by apply receiveUser_keeps_ids.
  - by apply receiveUser_keeps_ids.
  - apply list_elem_of_fmap in Hin as (x & Hid & Hx).
    apply list_elem_of_fmap. exists x. split; [done|].
    apply elem_of_cleanup. split; [done|]. by apply keep_self.
Qed.

Lemma step_NoDup (currentUser : User.t) (ev : Event) (st : State) :
  NoDup (User.id <$> onlineUsers st) ->
  NoDup (User.id <$> onlineUsers (step currentUser ev st)).
Proof.
  intros Hnd. rewrite step_onlineUsers.
  destruct ev as [now [r|u|u|m]|now|now|text|t_id t_ts|rawUrl t_id t_ts
                 |query net t_id t_ts| |serverConfig now]; try done.
  - by apply receiveUser_NoDup.
  - by apply receiveUser_NoDup.
  - by apply cleanup_NoDup.
Qed.

(** Every reachable presence list has pairwise distinct ids. *)
Lemma run_NoDup (currentUser : User.t) (evs : list Event) :
  NoDup (User.id <$> onlineUsers (run currentUser evs (initial currentUser))).
Proof.
  induction evs as [|ev evs IH] using rev_ind.
  - simpl. apply NoDup_singleton.
  - rewrite run_app. simpl. by apply step_NoDup.
Qed.

(** C1. At a cleanup tick read at time [now], an entry of the presence list
    that is not the local user's and whose [lastSeen] is 3000 ms or more
    behind [now] is removed: the entry is no longer in the list and, the ids
    of the list being distinct, neither is its id. An entry of another user
    seen less than 3000 ms ago stays. The tick is armed every 2000 ms. *)
Theorem cleanup_evicts_stale_keeps_fresh (currentUser : User.t) (now : Z)
    (st : State) (u : User.t) :
  u ∈ onlineUsers st ->
  User.id u <> User.id currentUser ->
  let after := onlineUsers (snd (cleanupTick currentUser now st)) in
  ((TTL <= now - User.lastSeenOr0 u)%Z ->
     (u ∉ after) /\
     (NoDup (User.id <$> onlineUsers st) -> User.id u ∉ User.id <$> after))
  /\ ((now - User.lastSeenOr0 u < TTL)%Z -> u ∈ after)
  /\ CLEANUP_PERIOD = 2000%Z /\ TTL = 3000%Z.
Proof.
  intros Hin Hpeer after. unfold TTL, CLEANUP_PERIOD.
  assert (Hafter : after = cleanup currentUser now (onlineUsers st)) by done.
  rewrite Hafter. clear Hafter after.
  pose proof (keep_peer currentUser now u Hpeer) as Hkeep.
  repeat split.
  - intros [_ Hk]%elem_of_cleanup. rewrite Hkeep in Hk.
    apply Z.ltb_lt in Hk. lia.
  - intros Hnd (x & Hid & [Hx Hk]%elem_of_cleanup)%list_elem_of_fmap.
    assert (x = u) as ->.
    { apply list_elem_of_lookup in Hx as [i Hi].
      apply list_elem_of_lookup in Hin as [j Hj].
      assert (i = j) as ->.
      { apply (NoDup_lookup _ _ _ (User.id u) Hnd);
          rewrite list_lookup_fmap; [rewrite Hi|rewrite Hj]; simpl; congruence. }
      congruence. }
    rewrite Hkeep in Hk. apply Z.ltb_lt in Hk. lia.
  - intros Hfresh. apply elem_of_cleanup. split; [done|].
    rewrite Hkeep. apply Z.ltb_lt. lia.
Qed.

(** The theorem at a concrete tick: a peer last seen at 100 is evicted by
    the tick at 3100 and kept by the tick at 3099. *)
Lemma cleanup_evicts_stale_keeps_fresh_witness :
  let me := User.mk [49%N] [65%N] [] true (Some 5%Z) in
  let bob := User.mk [50%N] [66%N] [] true (Some 100%Z) in
  let st := run me [Receive 100 (HEARTBEAT bob)] (initial me) in
  (bob ∉ onlineUsers (snd (cleanupTick me 3100 st)))
  /\ bob ∈ onlineUsers (snd (cleanupTick me 3099 st)).
Proof.
  intros me bob st.
  assert (Hin : bob ∈ onlineUsers st) by (vm_compute; apply list_elem_of_In; simpl; tauto).
  assert (Hid : User.id bob <> User.id me) by (vm_compute; congruence).
  split.
  - apply (cleanup_evicts_stale_keeps_fresh me 3100 st bob Hin Hid).
    vm_compute. congruence.
  - apply (cleanup_evicts_stale_keeps_fresh me 3099 st bob Hin Hid).
    vm_compute. reflexivity.
Defined.

(** While the component keeps the user it was mounted with: the presence
    list is created holding that user; the cleanup filter leaves the entries
    of that user's id as they are, whatever their [lastSeen]; and after any
    sequence of events handled for that user, the user's id is in the
    presence list. *)
Theorem self_always_present (currentUser : User.t) :
  onlineUsers (initial currentUser) = [currentUser]
  /\ (forall now prev,
        List.filter (fun u => streq (User.id u) (User.id currentUser))
          (cleanup currentUser now prev)
        = List.filter (fun u => streq (User.id u) (User.id currentUser)) prev)
  /\ (forall evs,
        User.id currentUser
          ∈ User.id <$> onlineUsers (run currentUser evs (initial currentUser))).
Proof.
  split; [done|]. split.
  - intros now prev. unfold cleanup.
    induction prev as [|a prev IH]; simpl; [done|].
    unfold keep at 1. destruct (streq (User.id a) (User.id currentUser)) eqn:E.
    + simpl. rewrite E. by f_equal.
    + destruct (Z.ltb _ _); simpl; [by rewrite E|done].
  - intros evs. induction evs as [|ev evs IH] using rev_ind.
    + simpl. apply list_elem_of_singleton. done.
    + rewrite run_app. simpl. by apply step_keeps_self.
Qed.

Lemma replaceProps_onlineUsers (user : User.t) (server : ServerConfig.t)
    (now : Z) (s : Session.t) :
  onlineUsers (Session.room (Session.replaceProps user server now s))
  = onlineUsers (Session.room s).
Proof.
  unfold Session.replaceProps, Session.rerunEffects. cbn [Session.room].
  destruct (streq (User.nickname user) (User.nickname (Session.currentUser s))
            && streq (ServerConfig.name server)
                 (ServerConfig.name (Session.serverConfig s)));
    run_handler.
Qed.

(** C2 fails in the code when the login form is submitted twice before the
    first login timer fires. Two users are built, at 1000 and at 1200; the
    first timer (1500) mounts the component with the first user, the second
    (1700) replaces its [currentUser] prop. The presence list, initialised
    on mount only, still holds the first user and not the local user's new
    id; the cleanup filter now guards the new id, and its tick at 5700
    removes the first user's entry. From then on the list is empty: the
    local user's own id is absent. *)
Theorem second_login_timer_loses_self :
  let server := nth 0 SERVER_LIST (ServerConfig.mk [] [] []) in
  let user1 := App.newUser [65%N] 3 1000 1000 in
  let user2 := App.newUser [65%N] 7 1200 1200 in
  let s1 := Session.mounted user1 server 1500 in
  let s2 := Session.run [Session.LoginTimer user2 server 1700] s1 in
  let s3 := Session.run [Session.Handle (HeartbeatTick 2700);
                         Session.Handle (CleanupTick 3700);
                         Session.Handle (HeartbeatTick 4700);
                         Session.Handle (CleanupTick 5700)] s2 in
  onlineUsers (Session.room s1) = [user1]
  /\ Session.currentUser s2 = user2
  /\ onlineUsers (Session.room s2) = [user1]
  /\ (User.id (Session.currentUser s2)
        ∉ User.id <$> onlineUsers (Session.room s2))
  /\ onlineUsers (Session.room s3) = []
  /\ (User.id (Session.currentUser s3)
        ∉ User.id <$> onlineUsers (Session.room s3)).
Proof.
  intros server user1 user2 s1 s2 s3.
  assert (H2 : onlineUsers (Session.room s2) = [user1]) by reflexivity.
  assert (H3 : onlineUsers (Session.room s3) = []) by (vm_compute; reflexivity).
  split; [reflexivity|]. split; [reflexivity|]. split; [exact H2|].
  split; [|split; [exact H3|]].
  - rewrite H2. intros Hin. apply list_elem_of_singleton in Hin.
    vm_compute in Hin. discriminate.
  - rewrite H3. apply not_elem_of_nil.
Qed.

(** C3. On a [USER_JOIN] or [HEARTBEAT] envelope carrying [user], received
    at local time [now]: when the presence list has an entry of that id, the
    first such entry (the only one when ids are distinct) is replaced by the
    fields of [user] with [lastSeen] set to [now], every other position is
    unchanged, and so are the length and the list of ids; when it has none,
    [user] with [lastSeen] set to [now] is appended. *)
Theorem receive_join_or_heartbeat_upserts (now : Z) (user : User.t)
    (data : Envelope) (st : State) :
  data = USER_JOIN user \/ data = HEARTBEAT user ->
  let prev := onlineUsers st in
  let next := onlineUsers (snd (onmessage now data st)) in
  let received :=
    {| User.id := User.id user; User.nickname := User.nickname user;
       User.avatar := User.avatar user; User.isOnline := User.isOnline user;
       User.lastSeen := Some now |} in
  (User.id user ∈ User.id <$> prev ->
     exists i old,
       prev !! i = Some old /\ User.id old = User.id user /\
       next !! i = Some received /\
       (forall j, j <> i -> next !! j = prev !! j) /\
       length next = length prev /\
       User.id <$> next = User.id <$> prev /\
       (NoDup (User.id <$> prev) ->
        forall j other, prev !! j = Some other ->
                        User.id other = User.id user -> j = i))
  /\ (User.id user ∉ User.id <$> prev -> next = prev ++ [received]).
Proof.
  intros Hdata prev next received.
  assert (Hnext : next = receiveUser now user prev)
    by (destruct Hdata as [-> | ->]; reflexivity).
  rewrite Hnext. clear Hnext next. split.
  - intros Hin.
    destruct (receiveUser_present now user prev Hin)
      as (i & old & Hold & Hid & _ & Heq).
    exists i, old. rewrite Heq.
    assert (Hi : (i < length prev)%nat) by by eapply lookup_lt_Some.
    repeat split; [done..| | | | |].
    + by apply list_lookup_insert_eq.
    + intros j Hj. by apply list_lookup_insert_ne.
    + apply length_insert.
    + rewrite <- Heq. by apply receiveUser_ids_present.
    + intros Hnd j other Hj Hother.
      apply (NoDup_lookup _ _ _ (User.id user) Hnd);
        rewrite list_lookup_fmap; [rewrite Hj|rewrite Hold]; simpl; congruence.
  - intros Hnot. by apply receiveUser_absent.
Qed.

(** The theorem on a heartbeat of a known peer and on the join of a new
    one. *)
Lemma receive_join_or_heartbeat_upserts_witness :
  let me := User.mk [49%N] [65%N] [] true (Some 5%Z) in
  let bob := User.mk [50%N] [66%N] [] true None in
  let carol := User.mk [51%N] [67%N] [] true None in
  let st := run me [Receive 100 (USER_JOIN bob)] (initial me) in
  onlineUsers (snd (onmessage 200 (USER_JOIN carol) st))
  = onlineUsers st ++ [User.withLastSeen carol 200].
Proof.
  intros me bob carol st.
  apply (receive_join_or_heartbeat_upserts 200 carol (USER_JOIN carol) st).
  - left. reflexivity.
  - vm_compute. intros H. apply list_elem_of_In in H. simpl in H.
    intuition congruence.
Defined.

(** ** The regular expressions *)

Lemma exec_literal (whole : jsstring) (p : jsstring) (r : regex) (pos : nat)
    (rest : jsstring) (opened : nat) (caps : list jsstring) :
  exec whole (literal p ++ r) pos rest opened caps
  = if startsWith rest p
    then exec whole r (pos + length p) (drop (length p) rest) opened caps
    else None.
Proof.
  revert pos rest; induction p as [|a p IH]; intros pos rest; simpl.
  - by rewrite Nat.add_0_r.
  - destruct rest as [|x rest]; [done|]. simpl.
    destruct (N.eqb x a); simpl; [|done].
    rewrite IH. by replace (S pos + length p)%nat with (pos + S (length p))%nat by lia.
Qed.

(** [.*] followed by the end of the group and [$]: the whole rest, when it
    has no line terminator. *)
Lemma star_dot_to_end {R : Type} (f : nat -> R) (pos : nat) (rest : jsstring) :
  star isDot (fun p r => match r with [] => Some (f p) | _ :: _ => None end)
    pos rest
  = if forallb isDot rest then Some (f (pos + length rest)%nat) else None.
Proof.
  revert pos; induction rest as [|x rest IH]; intros pos; simpl.
  - by rewrite Nat.add_0_r.
  - destruct (isDot x); simpl; [|done]. rewrite IH.
    replace (S pos + length rest)%nat with (pos + S (length rest))%nat by lia.
    by destruct (forallb isDot rest).
Qed.

Lemma forallb_trimStart (f : N -> bool) (s : jsstring) :
  forallb f s = true -> forallb f (trimStart s) = true.
Proof.
  destruct (trimStart_suffix s) as (ws & Hs & _). intros H.
  rewrite Hs, forallb_app in H. by apply andb_prop in H as [_ H].
Qed.

Lemma length_trimStart (s : jsstring) : (length (trimStart s) <= length s)%nat.
Proof.
  destruct (trimStart_suffix s) as (ws & Hs & _).
  rewrite Hs at 2. rewrite length_app. lia.
Qed.

(** [\s*] before a continuation that wants a rest without line terminator:
    all the leading white space is taken. *)
Lemma star_space_greedy {R : Type} (g : nat -> jsstring -> R) (pos : nat)
    (rest : jsstring) :
  star isSpace (fun p r => if forallb isDot r then Some (g p r) else None)
    pos rest
  = if forallb isDot (trimStart rest)
    then Some (g (pos + (length rest - length (trimStart rest)))%nat
                 (trimStart rest))
    else None.
Proof.
  revert pos; induction rest as [|x rest IH]; intros pos.
  - simpl. by rewrite Nat.add_0_r.
  - cbn [star trimStart]. destruct (isSpace x) eqn:Hx.
    + rewrite IH. pose proof (length_trimStart rest) as Hlen.
      destruct (forallb isDot (trimStart rest)) eqn:Hdot.
      * f_equal. f_equal. simpl. lia.
      * destruct (forallb isDot (x :: rest)) eqn:Hall; [|done].
        simpl in Hall. apply andb_prop in Hall as [_ Hall].
        apply forallb_trimStart in Hall. congruence.
    + replace (length (x :: rest) - length (x :: rest))%nat with 0%nat by lia.
      by rewrite Nat.add_0_r.
Qed.

Lemma substring_suffix (pre s : jsstring) :
  substring (pre ++ s) (length pre) (length pre + length s) = s.
Proof.
  unfold substring. rewrite drop_app_length.
  replace (length pre + length s - length pre)%nat with (length s) by lia.
  apply firstn_all.
Qed.

Lemma substring_all (s : jsstring) : substring s 0 (length s) = s.
Proof. apply (substring_suffix [] s). Qed.

Lemma search_Bol_later (whole : jsstring) (r : regex) (pos : nat)
    (rest : jsstring) :
  search whole (Bol :: r) (S pos) rest = None.
Proof.
  revert pos; induction rest as [|x rest IH]; intros pos; simpl; [done|].
  apply IH.
Qed.

Lemma star_ext {R : Type} (cls : N -> bool)
    (k k' : nat -> jsstring -> option R) (pos : nat) (rest : jsstring) :
  (forall p r, k p r = k' p r) -> star cls k pos rest = star cls k' pos rest.
Proof.
  intros Hk. revert pos; induction rest as [|x rest IH]; intros pos; simpl.
  - apply Hk.
  - rewrite IH, Hk. done.
Qed.

(** The group and the end of the pattern. *)
Lemma exec_group_to_end (whole : jsstring) (pos : nat) (rest : jsstring)
    (opened : nat) (caps : list jsstring) :
  exec whole [Open; Star isDot; Close; Eol] pos rest opened caps
  = if forallb isDot rest
    then Some ((pos + length rest)%nat,
               caps ++ [substring whole pos (pos + length rest)])
    else None.
Proof.
  cbn [exec].
  apply (star_dot_to_end (fun p => (p, caps ++ [substring whole pos p]))).
Qed.

(** The pattern after the prefix. *)
Lemma exec_after_prefix (whole : jsstring) (pos : nat) (rest : jsstring)
    (opened : nat) (caps : list jsstring) :
  exec whole [Star isSpace; Open; Star isDot; Close; Eol] pos rest opened caps
  = if forallb isDot (trimStart rest)
    then Some ((pos + length rest)%nat,
               caps ++ [substring whole
                          (pos + (length rest - length (trimStart rest)))
                          (pos + length rest)])
    else None.
Proof.
  change (exec whole [Star isSpace; Open; Star isDot; Close; Eol]
            pos rest opened caps)
    with (star isSpace
            (fun p r => exec whole [Open; Star isDot; Close; Eol] p r opened caps)
            pos rest).
  rewrite (star_ext isSpace
    (fun p r => exec whole [Open; Star isDot; Close; Eol] p r opened caps)
    (fun p r =>
       if forallb isDot r
       then Some ((p + length r)%nat,
                  caps ++ [substring whole p (p + length r)])
       else None)) by (intros p r; apply exec_group_to_end).
  rewrite (star_space_greedy
    (fun p r => ((p + length r)%nat, caps ++ [substring whole p (p + length r)]))).
  pose proof (length_trimStart rest) as Hlen.
  destruct (forallb isDot (trimStart rest)); [|done].
  replace (pos + (length rest - length (trimStart rest)) + length (trimStart rest))%nat
    with (pos + length rest)%nat by lia.
  done.
Qed.

Lemma exec_aiRegex_prefixed (cmds : Commands) (tail : jsstring) :
  exec (aiPrefix cmds ++ tail) (aiRegex cmds) 0 (aiPrefix cmds ++ tail) 0 []
  = if forallb isDot (trimStart tail)
    then Some (length (aiPrefix cmds ++ tail), [trimStart tail])
    else None.
Proof.
  unfold aiRegex. cbn [app exec Nat.eqb]. rewrite exec_literal.
  rewrite startsWith_app, drop_app_length, exec_after_prefix.
  destruct (forallb isDot (trimStart tail)); [|done].
  destruct (trimStart_suffix tail) as (ws & Htail & _).
  rewrite length_app. cbn [app Nat.add]. f_equal. f_equal. f_equal.
  assert (Hws : (length tail - length (trimStart tail))%nat = length ws).
  { rewrite Htail at 1. rewrite length_app. lia. }
  rewrite Hws.
  replace (aiPrefix cmds ++ tail) with ((aiPrefix cmds ++ ws) ++ trimStart tail)
    by (rewrite <- app_assoc; by rewrite <- Htail).
  replace (length (aiPrefix cmds) + length ws)%nat
    with (length (aiPrefix cmds ++ ws)) by (by rewrite length_app).
  replace (length (aiPrefix cmds) + length tail)%nat
    with (length (aiPrefix cmds ++ ws) + length (trimStart tail))%nat.
  - apply substring_suffix.
  - rewrite Htail at 2. rewrite !length_app. lia.
Qed.

Lemma exec_aiRegex_unprefixed (cmds : Commands) (content : jsstring) :
  startsWith content (aiPrefix cmds) = false ->
  exec content (aiRegex cmds) 0 content 0 [] = None.
Proof.
  intros H. unfold aiRegex. cbn [app exec Nat.eqb]. rewrite exec_literal.
  by rewrite H.
Qed.

Lemma search_at_start (whole : jsstring) (r : regex) :
  search whole (Bol :: r) 0 whole
  = match exec whole (Bol :: r) 0 whole 0 [] with
    | Some (e, caps) => Some (substring whole 0 e :: caps)
    | None => None
    end.
Proof.
  destruct whole as [|c whole']; cbn [search].
  - by destruct (exec [] (Bol :: r) 0 [] 0 []).
  - destruct (exec (c :: whole') (Bol :: r) 0 (c :: whole') 0 []); [done|].
    apply search_Bol_later.
Qed.

(** The match array of the assistant pattern, in closed form. *)
Lemma match_aiRegex (cmds : Commands) (content : jsstring) :
  match_ content (aiRegex cmds)
  = if startsWith content (aiPrefix cmds)
       && forallb isDot (trimStart (drop (length (aiPrefix cmds)) content))
    then Some [content; trimStart (drop (length (aiPrefix cmds)) content)]
    else None.
Proof.
  unfold match_. change (aiRegex cmds) with (Bol :: skipn 1 (aiRegex cmds)).
  rewrite search_at_start.
  change (Bol :: skipn 1 (aiRegex cmds)) with (aiRegex cmds).
  destruct (startsWith content (aiPrefix cmds)) eqn:Hpre.
  - pose proof (startsWith_drop _ _ Hpre) as Hcontent.
    set (tail := drop (length (aiPrefix cmds)) content) in *. clearbody tail.
    subst content. rewrite exec_aiRegex_prefixed. cbn [andb].
    destruct (forallb isDot (trimStart tail)); [|done].
    by rewrite substring_all.
  - by rewrite exec_aiRegex_unprefixed.
Qed.

Lemma exec_literal_only (whole p : jsstring) (pos : nat) (rest : jsstring) :
  exec whole (literal p) pos rest pos []
  = if startsWith rest p then Some ((pos + length p)%nat, []) else None.
Proof.
  rewrite <- (app_nil_r (literal p)). rewrite exec_literal. done.
Qed.

(** Replacing every match of a literal pattern by nothing takes the
    occurrences of the literal out. *)
Lemma replaceLoop_literal (whole : jsstring) (a : N) (p : jsstring)
    (skip pos : nat) (rest : jsstring) :
  replaceLoop whole (literal (a :: p)) [] skip pos rest
  = Spec.removeFrom (a :: p) skip rest.
Proof.
  revert skip pos; induction rest as [|c rest IH]; intros skip pos.
  - cbn [replaceLoop Spec.removeFrom]. destruct skip; [|done].
    by rewrite exec_literal_only.
  - cbn [replaceLoop Spec.removeFrom]. destruct skip as [|k]; [|apply IH].
    rewrite exec_literal_only.
    destruct (startsWith (c :: rest) (a :: p)).
    + replace (Nat.eqb (pos + length (a :: p)) pos) with false
        by (symmetry; apply Nat.eqb_neq; simpl; lia).
      cbn [app]. rewrite IH. f_equal. simpl. lia.
    + by rewrite IH.
Qed.

Lemma replaceLoop_empty (whole : jsstring) (pos : nat) (rest : jsstring) :
  replaceLoop whole [] [] 0 pos rest = rest.
Proof.
  revert pos; induction rest as [|c rest IH]; intros pos; [done|].
  cbn [replaceLoop exec]. rewrite Nat.eqb_refl. cbn [app]. by rewrite IH.
Qed.

Lemma replaceAll_literal (s token : jsstring) :
  replaceAll s (literal token) [] = Spec.removeToken token s.
Proof.
  unfold replaceAll, Spec.removeToken. destruct token as [|a p].
  - apply replaceLoop_empty.
  - apply replaceLoop_literal.
Qed.

(** The target computed by the source is the target of the
    specification. *)
Lemma movieTarget_spec (cmds : Commands) (content : jsstring) :
  startsWith content (moviePrefix cmds) = true ->
  movieTarget cmds content = Spec.rawTarget cmds content.
Proof.
  intros H. unfold movieTarget, Spec.rawTarget, fillerRegex.
  by rewrite (replace_prefix _ _ H), replaceAll_literal.
Qed.

Lemma trimStart_no_space (s : jsstring) :
  match s with c :: _ => isSpace c = false | [] => True end -> trimStart s = s.
Proof. destruct s as [|c s]; [done|]. simpl. by intros ->. Qed.

Lemma trimStart_app_space (ws s : jsstring) :
  forallb isSpace ws = true -> trimStart (ws ++ s) = trimStart s.
Proof.
  induction ws as [|c ws IH]; simpl; [done|].
  intros [-> H]%andb_prop. by apply IH.
Qed.

Lemma trimStart_head (s : jsstring) :
  match trimStart s with c :: _ => isSpace c = false | [] => True end.
Proof.
  induction s as [|c s IH]; simpl; [done|].
  destruct (isSpace c) eqn:Hc; [done|]. done.
Qed.

(** The capture of the specification is what the matcher captures. *)
Lemma assistantCapture_iff (cmds : Commands) (content capture : jsstring) :
  Spec.assistantCapture cmds content capture
  <-> match_ content (aiRegex cmds) = Some [content; capture].
Proof.
  rewrite match_aiRegex. split.
  - intros (ws & (Hcontent & Hws & Hdot) & Hhead). subst content.
    rewrite startsWith_app, drop_app_length.
    rewrite (trimStart_app_space _ _ Hws), (trimStart_no_space _ Hhead).
    by rewrite Hdot.
  - destruct (startsWith content (aiPrefix cmds)) eqn:Hpre; [|done].
    cbn [andb].
    destruct (forallb isDot (trimStart (drop (length (aiPrefix cmds)) content)))
      eqn:Hdot; [|done].
    intros [= <-].
    destruct (trimStart_suffix (drop (length (aiPrefix cmds)) content))
      as (ws & Htail & Hws).
    exists ws. split; [|apply trimStart_head].
    split; [|done]. rewrite <- Htail. by apply startsWith_drop.
Qed.

(** Every reading of a content by the pattern gives a capture: the rest
    without its leading white space. *)
Lemma assistantParse_capture (cmds : Commands) (content ws rest : jsstring) :
  Spec.assistantParse cmds content ws rest ->
  Spec.assistantCapture cmds content (trimStart rest).
Proof.
  intros (Hcontent & Hws & Hdot).
  destruct (trimStart_suffix rest) as (ws' & Hrest & Hws').
  exists (ws ++ ws'). split; [|apply trimStart_head].
  split; [|split].
  - rewrite Hcontent. rewrite Hrest at 1. by rewrite <- app_assoc.
  - by rewrite forallb_app, Hws, Hws'.
  - by apply forallb_trimStart.
Qed.

(** A match array of the assistant pattern holds the content and one
    capture. *)
Lemma match_aiRegex_shape (cmds : Commands) (content : jsstring)
    (aiMatch : list jsstring) :
  match_ content (aiRegex cmds) = Some aiMatch ->
  aiMatch = [content; nth 1 aiMatch []].
Proof.
  rewrite match_aiRegex. destruct (_ && _); [|done]. by intros [= <-].
Qed.

(** ** Sending *)

(** The guard of [handleSendMessage]. *)
Lemma send_blank (cmds : Commands) (currentUser : User.t) (t_id t_ts : Z)
    (st : State) :
  trim (inputText st) = [] ->
  handleSendMessageWith cmds currentUser t_id t_ts st = (Returned Finished, st).
Proof. intros H. unfold handleSendMessageWith. by rewrite H. Qed.

(** The local echo comes before the publication, whatever becomes of the
    latter. *)
Lemma send_messages (cmds : Commands) (currentUser : User.t) (t_id t_ts : Z)
    (st : State) :
  trim (inputText st) <> [] ->
  messages (snd (handleSendMessageWith cmds currentUser t_id t_ts st))
  = messages st
    ++ [userMessage currentUser (trim (inputText st)) t_id t_ts].
Proof.
  intros H%truthyStr_true_iff. unfold handleSendMessageWith. rewrite H.
  cbn [negb]. run_handler.
Qed.

Lemma send_closed (cmds : Commands) (currentUser : User.t) (t_id t_ts : Z)
    (st : State) :
  trim (inputText st) <> [] -> channelClosed st = true ->
  fst (handleSendMessageWith cmds currentUser t_id t_ts st) = Threw.
Proof.
  intros H%truthyStr_true_iff Hclosed. unfold handleSendMessageWith. rewrite H.
  cbn [negb]. unfold bind, setMessages, postMessage. simpl. by rewrite Hclosed.
Qed.

(** A content with the movie prefix, on an open channel. *)
Lemma send_movie (cmds : Commands) (currentUser : User.t) (t_id t_ts : Z)
    (st : State) :
  trim (inputText st) <> [] -> channelClosed st = false ->
  startsWith (trim (inputText st)) (moviePrefix cmds) = true ->
  handleSendMessageWith cmds currentUser t_id t_ts st
  = (Returned
       (if truthyStr (movieTarget cmds (trim (inputText st)))
        then MovieTimer MOVIE_DELAY (movieTarget cmds (trim (inputText st)))
        else Finished),
     {| messages := messages st
          ++ [userMessage currentUser (trim (inputText st)) t_id t_ts];
        inputText := [];
        onlineUsers := onlineUsers st;
        showEmojiPicker := false;
        isAiThinking := isAiThinking st;
        channelClosed := false;
        posted := posted st
          ++ [NEW_MESSAGE (userMessage currentUser (trim (inputText st)) t_id t_ts)] |}).
Proof.
  intros H%truthyStr_true_iff Hopen Hpre. unfold handleSendMessageWith.
  rewrite H. cbn [negb].
  unfold bind, setMessages, postMessage, setInputText, setShowEmojiPicker, ret.
  simpl. rewrite Hopen, Hpre.
  by destruct (truthyStr (movieTarget cmds (trim (inputText st)))).
Qed.

(** A content without the movie prefix, on an open channel. *)
Lemma send_other (cmds : Commands) (currentUser : User.t) (t_id t_ts : Z)
    (st : State) :
  trim (inputText st) <> [] -> channelClosed st = false ->
  startsWith (trim (inputText st)) (moviePrefix cmds) = false ->
  handleSendMessageWith cmds currentUser t_id t_ts st
  = (Returned
       match match_ (trim (inputText st)) (aiRegex cmds) with
       | Some aiMatch => AwaitingAi (aiQuery cmds aiMatch)
       | None => Finished
       end,
     {| messages := messages st
          ++ [userMessage currentUser (trim (inputText st)) t_id t_ts];
        inputText := [];
        onlineUsers := onlineUsers st;
        showEmojiPicker := false;
        isAiThinking :=
          match match_ (trim (inputText st)) (aiRegex cmds) with
          | Some _ => true
          | None => isAiThinking st
          end;
        channelClosed := false;
        posted := posted st
          ++ [NEW_MESSAGE (userMessage currentUser (trim (inputText st)) t_id t_ts)] |}).
Proof.
  intros H%truthyStr_true_iff Hopen Hpre. unfold handleSendMessageWith.
  rewrite H. cbn [negb].
  unfold bind, setMessages, postMessage, setInputText, setShowEmojiPicker,
    setIsAiThinking, ret.
  simpl. rewrite Hopen, Hpre.
  by destruct (match_ (trim (inputText st)) (aiRegex cmds)).
Qed.

(** C10. When the input text is empty or white space only, sending does
    nothing: the handler returns at once with the state as it was (no
    message in the transcript, no envelope on the channel, input text
    untouched) and leaves neither a movie timer nor an assistant call
    behind. *)
Theorem blank_input_is_noop (cmds : Commands) (currentUser : User.t)
    (t_id t_ts : Z) (st : State) :
  forallb isSpace (inputText st) = true ->
  handleSendMessageWith cmds currentUser t_id t_ts st = (Returned Finished, st)
  /\ handleSendMessage currentUser t_id t_ts st = (Returned Finished, st).
Proof.
  intros H%trim_nil_iff. split; by apply send_blank.
Qed.

(** The theorem on an input of three blanks. *)
Lemma blank_input_is_noop_witness :
  let me := User.mk [49%N] [65%N] [] true (Some 5%Z) in
  let st := snd (setInputText [32%N; 9%N; 10%N] (initial me)) in
  handleSendMessage me 10 11 st = (Returned Finished, st).
Proof.
  intros me st.
  apply (blank_input_is_noop sourceCommands me 10 11 st). reflexivity.
Defined.

(** *** Delivery by the channel *)




Lemma send_posted_open (cmds : Commands) (currentUser : User.t)
    (t_id t_ts : Z) (st : State) :
  trim (inputText st) <> [] -> channelClosed st = false ->
  posted (snd (handleSendMessageWith cmds currentUser t_id t_ts st))
  = posted st
    ++ [NEW_MESSAGE (userMessage currentUser (trim (inputText st)) t_id t_ts)].
Proof.
  intros Hne Hopen.
  destruct (startsWith (trim (inputText st)) (moviePrefix cmds)) eqn:Hpre.
  - by rewrite send_movie.
  - by rewrite send_other.
Qed.



(** ** The movie bot *)

Lemma movieTimerCallback_messages (rawUrl : jsstring) (t_id t_ts : Z)
    (st : State) :
  messages (snd (movieTimerCallback rawUrl t_id t_ts st))
  = messages st ++ [movieBotMsg rawUrl t_id t_ts].
Proof. run_handler. Qed.

Lemma movieTimerCallback_posted (rawUrl : jsstring) (t_id t_ts : Z)
    (st : State) :
  channelClosed st = false ->
  posted (snd (movieTimerCallback rawUrl t_id t_ts st))
  = posted st ++ [NEW_MESSAGE (movieBotMsg rawUrl t_id t_ts)].
Proof. intros H. run_handler. Qed.

(** C5. A sent content that starts with the movie prefix has as target the
    content with the prefix stripped, the filler token removed and white
    space trimmed. With an empty target the handler ends there: only the
    user's own message was appended and published, nothing is pending. With
    any other target a timer of 600 ms is armed, and its callback appends
    and publishes one message of type [VIDEO] whose [videoUrl] is
    [VIDEO_PARSER_URL] followed by the target, code unit for code unit. *)
Theorem movie_command_target_and_reply (cmds : Commands) (currentUser : User.t)
    (t_id t_ts : Z) (st : State) :
  let content := trim (inputText st) in
  content <> [] ->
  channelClosed st = false ->
  startsWith content (moviePrefix cmds) = true ->
  let target := Spec.rawTarget cmds content in
  let result := handleSendMessageWith cmds currentUser t_id t_ts st in
  (target = [] ->
     fst result = Returned Finished
     /\ messages (snd result)
        = messages st ++ [userMessage currentUser content t_id t_ts]
     /\ posted (snd result)
        = posted st ++ [NEW_MESSAGE (userMessage currentUser content t_id t_ts)])
  /\ (target <> [] ->
      fst result = Returned (MovieTimer 600 target)
      /\ forall t_id' t_ts' st1,
           let st2 := snd (movieTimerCallback target t_id' t_ts' st1) in
           exists reply,
             messages st2 = messages st1 ++ [reply]
             /\ (channelClosed st1 = false ->
                 posted st2 = posted st1 ++ [NEW_MESSAGE reply])
             /\ Message.type reply = VIDEO
             /\ Message.senderId reply = lit "movie-bot"
             /\ Message.videoUrl reply = Some (VIDEO_PARSER_URL ++ target)).
Proof.
  intros content Hne Hopen Hpre target result.
  assert (Hresult : result = handleSendMessageWith cmds currentUser t_id t_ts st)
    by done.
  rewrite (send_movie _ _ _ _ _ Hne Hopen Hpre) in Hresult.
  fold content in Hresult. rewrite (movieTarget_spec _ _ Hpre) in Hresult.
  fold target in Hresult. rewrite Hresult. clear Hresult result. split.
  - intros Hempty. by rewrite Hempty.
  - intros Hfull%truthyStr_true_iff. rewrite Hfull. split; [done|].
    intros t_id' t_ts' st1 st2. exists (movieBotMsg target t_id' t_ts').
    split; [apply movieTimerCallback_messages|].
    split; [apply movieTimerCallback_posted|done].
Qed.

(** The theorem on the example of the specification: prefix [@movie],
    filler [play], input [@movie play http://example/x]. *)
Lemma movie_command_target_and_reply_witness :
  let cmds := mkCommands (lit "@movie") (lit "play") (lit "@assistant")
                (lit "hello") in
  let me := User.mk [49%N] [65%N] [] true (Some 5%Z) in
  let st := snd (setInputText (lit "@movie play http://example/x") (initial me)) in
  fst (handleSendMessageWith cmds me 10 11 st)
  = Returned (MovieTimer 600 (lit "http://example/x")).
Proof.
  intros cmds me st.
  apply (movie_command_target_and_reply cmds me 10 11 st).
  - vm_compute. congruence.
  - reflexivity.
  - reflexivity.
  - vm_compute. congruence.
Defined.

(** The same on the source's own commands, and the bare prefix. *)
Example movie_command_source :
  let me := User.mk [49%N] [65%N] [] true (Some 5%Z) in
  fst (handleSendMessage me 10 11
         (snd (setInputText ([64; 30005; 24433; 32; 25773; 25918; 32]%N
                             ++ lit "http://example/x") (initial me))))
  = Returned (MovieTimer 600 (lit "http://example/x"))
  /\ fst (handleSendMessage me 10 11
            (snd (setInputText [64; 30005; 24433]%N (initial me))))
     = Returned Finished.
Proof. split; reflexivity. Qed.

(** C6. When the sent content starts with the movie prefix, the handler
    never reaches the assistant branch, whatever the assistant pattern would
    say of the content and whether or not a movie timer was armed: it does
    not suspend on an assistant call, the thinking flag is as before, and
    the transcript has gained the user's own message only. *)
Theorem movie_prefix_excludes_assistant (cmds : Commands) (currentUser : User.t)
    (t_id t_ts : Z) (st : State) :
  let content := trim (inputText st) in
  content <> [] ->
  startsWith content (moviePrefix cmds) = true ->
  let result := handleSendMessageWith cmds currentUser t_id t_ts st in
  (forall query, fst result <> Returned (AwaitingAi query))
  /\ isAiThinking (snd result) = isAiThinking st
  /\ messages (snd result)
     = messages st ++ [userMessage currentUser content t_id t_ts]
  /\ (channelClosed st = false ->
      (fst result = Returned Finished
       \/ exists rawUrl, fst result = Returned (MovieTimer 600 rawUrl))
      /\ posted (snd result)
         = posted st ++ [NEW_MESSAGE (userMessage currentUser content t_id t_ts)]).
Proof.
  intros content Hne Hpre result.
  assert (Hresult : result = handleSendMessageWith cmds currentUser t_id t_ts st)
    by done.
  destruct (channelClosed st) eqn:Hclosed.
  - pose proof (send_closed cmds currentUser t_id t_ts st Hne Hclosed) as Hthrew.
    pose proof (send_messages cmds currentUser t_id t_ts st Hne) as Hmsgs.
    rewrite <- Hresult in Hthrew, Hmsgs.
    split; [intros query; by rewrite Hthrew|].
    split; [|split; [done|done]].
    rewrite Hresult. apply truthyStr_true_iff in Hne.
    unfold handleSendMessageWith. fold content. rewrite Hne. cbn [negb].
    unfold bind, setMessages, postMessage. simpl. by rewrite Hclosed.
  - rewrite (send_movie _ _ _ _ _ Hne Hclosed Hpre) in Hresult.
    rewrite Hresult. simpl.
    split; [intros query; by destruct (truthyStr _)|].
    split; [done|]. split; [done|]. intros _. split; [|done].
    destruct (truthyStr (movieTarget cmds (trim (inputText st)))); eauto.
Qed.

(** The theorem on commands chosen so that one content has both prefixes:
    the movie prefix [@bot] and the assistant prefix [@bot]. *)
Lemma movie_prefix_excludes_assistant_witness :
  let cmds := mkCommands (lit "@bot") (lit "play") (lit "@bot") (lit "hello") in
  let me := User.mk [49%N] [65%N] [] true (Some 5%Z) in
  let st := snd (setInputText (lit "@bot sing") (initial me)) in
  match_ (trim (inputText st)) (aiRegex cmds)
  = Some [lit "@bot sing"; lit "sing"]
  /\ isAiThinking (snd (handleSendMessageWith cmds me 10 11 st)) = false.
Proof.
  intros cmds me st. split; [reflexivity|].
  apply (movie_prefix_excludes_assistant cmds me 10 11 st).
  - vm_compute. congruence.
  - reflexivity.
Defined.

(** ** The assistant *)

Lemma aiPrefix_not_moviePrefix (tail : jsstring) :
  startsWith (aiPrefix sourceCommands ++ tail) (moviePrefix sourceCommands)
  = false.
Proof. reflexivity. Qed.

(** C9. When the sent content matches the assistant pattern (the prefix,
    white space, a capture without line terminator up to the end), the match
    array of the source's regular expression holds that trailing capture,
    and the handler suspends on the assistant call with the capture as
    query, or with the default phrase when the capture is empty. *)
Theorem assistant_query_is_capture (currentUser : User.t) (t_id t_ts : Z)
    (st : State) (capture : jsstring) :
  let content := trim (inputText st) in
  channelClosed st = false ->
  Spec.assistantCapture sourceCommands content capture ->
  match_ content (aiRegex sourceCommands) = Some [content; capture]
  /\ fst (handleSendMessage currentUser t_id t_ts st)
     = Returned (AwaitingAi (match capture with
                             | [] => defaultQuery sourceCommands
                             | _ :: _ => capture
                             end)).
Proof.
  intros content Hopen Hcap.
  pose proof (proj1 (assistantCapture_iff _ _ _) Hcap) as Hmatch.
  split; [done|].
  destruct Hcap as (ws & (Hcontent & _ & _) & _).
  assert (Hne : trim (inputText st) <> []).
  { fold content. rewrite Hcontent. done. }
  assert (Hpre : startsWith (trim (inputText st)) (moviePrefix sourceCommands)
                 = false).
  { fold content. rewrite Hcontent. apply aiPrefix_not_moviePrefix. }
  unfold handleSendMessage. rewrite (send_other _ _ _ _ _ Hne Hopen Hpre).
  fold content. rewrite Hmatch. cbn [fst]. unfold aiQuery. cbn [nth].
  by destruct capture.
Qed.

(** The theorem on the prefix followed by [hello], and on the bare
    prefix. *)
Lemma assistant_query_is_capture_witness :
  let me := User.mk [49%N] [65%N] [] true (Some 5%Z) in
  let hello := [64; 24029; 23567; 20892; 32; 104; 101; 108; 108; 111]%N in
  let bare := [64; 24029; 23567; 20892]%N in
  fst (handleSendMessage me 10 11 (snd (setInputText hello (initial me))))
  = Returned (AwaitingAi [104; 101; 108; 108; 111]%N)
  /\ fst (handleSendMessage me 10 11 (snd (setInputText bare (initial me))))
     = Returned (AwaitingAi [20320; 22909]%N).
Proof.
  intros me hello bare. split.
  - apply (assistant_query_is_capture me 10 11
             (snd (setInputText hello (initial me))) [104; 101; 108; 108; 111]%N).
    + reflexivity.
    + exists [32%N]. vm_compute. tauto.
  - apply (assistant_query_is_capture me 10 11
             (snd (setInputText bare (initial me))) []).
    + reflexivity.
    + exists []. vm_compute. tauto.
Defined.

(** The examples of the specification, on its own commands. *)
Example assistant_command_examples :
  let cmds := mkCommands (lit "@movie") (lit "play") (lit "@assistant")
                (lit "hi there") in
  let me := User.mk [49%N] [65%N] [] true (Some 5%Z) in
  fst (handleSendMessageWith cmds me 10 11
         (snd (setInputText (lit "@assistant hello") (initial me))))
  = Returned (AwaitingAi (lit "hello"))
  /\ fst (handleSendMessageWith cmds me 10 11
            (snd (setInputText (lit "@assistant") (initial me))))
     = Returned (AwaitingAi (lit "hi there")).
Proof. split; reflexivity. Qed.

(** The answer of [sendMessageToAi] in closed form. *)
Lemma optNamed_own (v : JsValue) (key : jsstring) :
  optNamed v key = default VUndefined (ownNamed v key).
Proof. by destruct v. Qed.

Lemma optIndex_own (v : JsValue) (i : nat) :
  optIndex v i = default VUndefined (ownIndex v i).
Proof. by destruct v. Qed.

Lemma content_chain (data : JsValue) :
  optNamed
    (optNamed (optIndex (default VUndefined (ownNamed data (lit "choices"))) 0)
       (lit "message"))
    (lit "content")
  = default VUndefined (AiService.contentPath data).
Proof.
  rewrite optIndex_own, !optNamed_own. unfold AiService.contentPath.
  destruct (ownNamed data (lit "choices")) as [choices|]; [|done]. simpl.
  destruct (ownIndex choices 0) as [first|]; [|done]. simpl.
  by destruct (ownNamed first (lit "message")).
Qed.

Lemma contentPath_nullish (data : JsValue) :
  isNullish data = true -> AiService.contentPath data = None.
Proof. by destruct data. Qed.

Lemma sendMessageToAi_ok (userMessage : jsstring) (data : JsValue) :
  AiService.sendMessageToAi userMessage (AiService.Response true (Some data))
  = Returned
      (if isNullish data then VStr AiService.NETWORK_ERROR
       else or (default VUndefined (AiService.contentPath data))
              (VStr AiService.NOTHING_TO_SAY)).
Proof.
  unfold AiService.sendMessageToAi, AiService.tryBlock. simpl.
  unfold getNamed. destruct (isNullish data); [done|].
  by rewrite content_chain.
Qed.

Lemma sendMessageToAi_returns (userMessage : jsstring)
    (net : AiService.FetchOutcome) :
  exists answer, AiService.sendMessageToAi userMessage net = Returned answer.
Proof.
  unfold AiService.sendMessageToAi.
  destruct (AiService.tryBlock userMessage net); eauto.
Qed.

(** C7, as the code has it. [sendMessageToAi] returns a value for every
    outcome of the request and never throws. When [fetch] rejects, when the
    status is not a success, when the body is not JSON and when the body
    lacks the path [choices[0].message.content], the value is one of the
    three fixed strings. When the path is there the value is the content if
    that is truthy, and the fixed string for an empty answer if it is falsy
    (the empty string, [null], [false], zero). *)
Theorem sendMessageToAi_total_with_fallbacks (userMessage : jsstring)
    (net : AiService.FetchOutcome) :
  exists answer,
    AiService.sendMessageToAi userMessage net = Returned answer
    /\ match net with
       | AiService.FetchRejected => answer = VStr AiService.NETWORK_ERROR
       | AiService.Response false (Some _) => answer = VStr AiService.API_ERROR
       | AiService.Response _ None => answer = VStr AiService.NETWORK_ERROR
       | AiService.Response true (Some data) =>
           match AiService.contentPath data with
           | None => answer ∈ AiService.fallbacks
           | Some content =>
               if truthy content then answer = content
               else answer = VStr AiService.NOTHING_TO_SAY
           end
       end
    /\ (answer ∈ AiService.fallbacks
        \/ exists data, net = AiService.Response true (Some data)
                        /\ AiService.contentPath data = Some answer).
Proof.
  assert (Hapi : VStr AiService.API_ERROR ∈ AiService.fallbacks)
    by (unfold AiService.fallbacks; repeat constructor).
  assert (Hnothing : VStr AiService.NOTHING_TO_SAY ∈ AiService.fallbacks)
    by (unfold AiService.fallbacks; repeat constructor).
  assert (Hnetwork : VStr AiService.NETWORK_ERROR ∈ AiService.fallbacks)
    by (unfold AiService.fallbacks; repeat constructor).
  destruct net as [|[|] [data|]].
  - exists (VStr AiService.NETWORK_ERROR). split; [done|]. split; [done|by left].
  - rewrite sendMessageToAi_ok. eexists. split; [done|].
    destruct (isNullish data) eqn:Hnull.
    + rewrite (contentPath_nullish _ Hnull). split; [done|by left].
    + destruct (AiService.contentPath data) as [content|] eqn:Hpath; simpl.
      * unfold or. destruct (truthy content) eqn:Htruthy.
        -- split; [done|]. right. by exists data.
        -- split; [done|by left].
      * split; [done|by left].
  - exists (VStr AiService.NETWORK_ERROR). split; [done|]. split; [done|by left].
  - exists (VStr AiService.API_ERROR). split; [done|]. split; [done|by left].
  - exists (VStr AiService.NETWORK_ERROR). split; [done|]. split; [done|by left].
Qed.

(** C7, as stated, fails on a success response whose content is there and
    empty: the function returns the fixed string for an empty answer, not
    [choices[0].message.content]. *)
Lemma empty_content_is_not_returned :
  let body :=
    VObj [(lit "choices",
           VArr [VObj [(lit "message", VObj [(lit "content", VStr [])])]])] in
  AiService.contentPath body = Some (VStr [])
  /\ AiService.sendMessageToAi [104%N; 105%N] (AiService.Response true (Some body))
     = Returned (VStr AiService.NOTHING_TO_SAY)
  /\ AiService.sendMessageToAi [104%N; 105%N] (AiService.Response true (Some body))
     <> Returned (VStr []).
Proof. repeat split. vm_compute. congruence. Qed.

(** The resumed handler in closed form, on an open channel. *)
Lemma handleSendMessageResume_open (query : jsstring)
    (net : AiService.FetchOutcome) (t_id t_ts : Z) (st : State)
    (answer : JsValue) :
  channelClosed st = false ->
  AiService.sendMessageToAi query net = Returned answer ->
  handleSendMessageResume query net t_id t_ts st
  = (Returned tt,
     {| messages := messages st ++ [aiMessage answer t_id t_ts];
        inputText := inputText st;
        onlineUsers := onlineUsers st;
        showEmojiPicker := showEmojiPicker st;
        isAiThinking := false;
        channelClosed := false;
        posted := posted st ++ [NEW_MESSAGE (aiMessage answer t_id t_ts)] |}).
Proof.
  intros Hopen Hanswer. unfold handleSendMessageResume, tryFinally, bind, await.
  rewrite Hanswer. unfold setMessages, postMessage, setIsAiThinking. simpl.
  by rewrite Hopen.
Qed.

(** The [finally] block runs whatever the [try] block does. *)
Lemma handleSendMessageResume_flag (query : jsstring)
    (net : AiService.FetchOutcome) (t_id t_ts : Z) (st : State) :
  isAiThinking (snd (handleSendMessageResume query net t_id t_ts st)) = false.
Proof. run_handler. Qed.

Lemma handleSendMessageResume_closed (query : jsstring)
    (net : AiService.FetchOutcome) (t_id t_ts : Z) (st : State) :
  channelClosed st = true ->
  fst (handleSendMessageResume query net t_id t_ts st) = Threw.
Proof.
  intros Hclosed. destruct (sendMessageToAi_returns query net) as [answer Ha].
  unfold handleSendMessageResume, tryFinally, bind, await. rewrite Ha.
  unfold setMessages, postMessage, setIsAiThinking. simpl. by rewrite Hclosed.
Qed.

Lemma send_awaiting_sets_flag (cmds : Commands) (currentUser : User.t)
    (t_id t_ts : Z) (st : State) (query : jsstring) :
  fst (handleSendMessageWith cmds currentUser t_id t_ts st)
  = Returned (AwaitingAi query) ->
  isAiThinking (snd (handleSendMessageWith cmds currentUser t_id t_ts st)) = true.
Proof.
  destruct (truthyStr (trim (inputText st))) eqn:Hne.
  - apply truthyStr_true_iff in Hne.
    destruct (channelClosed st) eqn:Hclosed.
    + by rewrite (send_closed _ _ _ _ _ Hne Hclosed).
    + destruct (startsWith (trim (inputText st)) (moviePrefix cmds)) eqn:Hpre.
      * rewrite (send_movie _ _ _ _ _ Hne Hclosed Hpre). simpl.
        by destruct (truthyStr _).
      * rewrite (send_other _ _ _ _ _ Hne Hclosed Hpre). simpl.
        by destruct (match_ _ _).
  - apply truthyStr_false_iff in Hne. by rewrite (send_blank _ _ _ _ _ Hne).
Qed.

(** C8. The thinking flag is true when the handler suspends on the
    assistant call. When the handler is resumed, in whatever state and
    whatever the request came to (an answer, a rejected [fetch], an error
    status, a body that is not JSON or lacks the content), the flag is false
    at its end: on an open channel after the bot message was appended and
    published, on a closed one after [postMessage] threw. *)
Theorem thinking_flag_always_reset (cmds : Commands) (currentUser : User.t)
    (t_id t_ts : Z) (st : State) (query : jsstring)
    (net : AiService.FetchOutcome) (t_id' t_ts' : Z) (st1 : State) :
  fst (handleSendMessageWith cmds currentUser t_id t_ts st)
  = Returned (AwaitingAi query) ->
  let resumed := handleSendMessageResume query net t_id' t_ts' st1 in
  isAiThinking (snd (handleSendMessageWith cmds currentUser t_id t_ts st)) = true
  /\ isAiThinking (snd resumed) = false
  /\ (channelClosed st1 = false ->
      exists answer,
        AiService.sendMessageToAi query net = Returned answer
        /\ fst resumed = Returned tt
        /\ messages (snd resumed)
           = messages st1 ++ [aiMessage answer t_id' t_ts']
        /\ posted (snd resumed)
           = posted st1 ++ [NEW_MESSAGE (aiMessage answer t_id' t_ts')])
  /\ (channelClosed st1 = true -> fst resumed = Threw).
Proof.
  intros Hawait resumed.
  split; [by apply (send_awaiting_sets_flag _ _ _ _ _ query)|].
  split; [apply handleSendMessageResume_flag|]. split.
  - intros Hopen. destruct (sendMessageToAi_returns query net) as [answer Ha].
    exists answer. unfold resumed.
    by rewrite (handleSendMessageResume_open _ _ _ _ _ _ Hopen Ha).
  - apply handleSendMessageResume_closed.
Qed.

(** The theorem on the bare assistant prefix, resumed after [fetch] was
    rejected. *)
Lemma thinking_flag_always_reset_witness :
  let me := User.mk [49%N] [65%N] [] true (Some 5%Z) in
  let st := snd (setInputText [64; 24029; 23567; 20892]%N (initial me)) in
  let st1 := snd (handleSendMessage me 10 11 st) in
  isAiThinking st1 = true
  /\ isAiThinking
       (snd (handleSendMessageResume [20320; 22909]%N AiService.FetchRejected
               20 21 st1)) = false.
Proof.
  intros me st st1.
  assert (Hawait : fst (handleSendMessageWith sourceCommands me 10 11 st)
                   = Returned (AwaitingAi [20320; 22909]%N)) by reflexivity.
  destruct (thinking_flag_always_reset sourceCommands me 10 11 st
              [20320; 22909]%N AiService.FetchRejected 20 21 st1 Hawait)
    as (Hset & Hreset & _).
  split; [exact Hset|exact Hreset].
Defined.

(** * Further properties of the code *)

Import ChatRoomView.

(** ** Presence over several events *)

Lemma lastSeenOr0_withLastSeen (user : User.t) (now : Z) :
  User.lastSeenOr0 (User.withLastSeen user now) = now.
Proof.
  unfold User.lastSeenOr0. simpl. destruct (Z.eqb now 0) eqn:E; [|done].
  apply Z.eqb_eq in E. done.
Qed.

Lemma receiveUser_has (now : Z) (user : User.t) (prev : list User.t) :
  User.withLastSeen user now ∈ receiveUser now user prev.
Proof.
  destruct (decide (User.id user ∈ User.id <$> prev)) as [Hin|Hnot].
  - destruct (receiveUser_present now user prev Hin)
      as (i & old & Hold & _ & _ & ->).
    apply list_elem_of_insert. by eapply lookup_lt_Some.
  - rewrite (receiveUser_absent _ _ _ Hnot). apply elem_of_app. right.
    by apply list_elem_of_singleton.
Qed.

Lemma elem_of_receiveUser (now : Z) (user : User.t) (prev : list User.t)
    (u : User.t) :
  u ∈ receiveUser now user prev -> u ∈ prev \/ u = User.withLastSeen user now.
Proof.
  destruct (decide (User.id user ∈ User.id <$> prev)) as [Hin|Hnot].
  - destruct (receiveUser_present now user prev Hin)
      as (i & old & Hold & _ & _ & ->).
    intros [j Hj]%list_elem_of_lookup.
    apply list_lookup_insert_Some in Hj as [(_ & -> & _)|[_ Hj]]; [by right|].
    left. by eapply list_elem_of_lookup_2.
  - rewrite (receiveUser_absent _ _ _ Hnot).
    intros [H|H%list_elem_of_singleton]%elem_of_app; eauto.
Qed.

(** With distinct ids, an id names one entry. *)
Lemma same_id_same_entry (l : list User.t) (x y : User.t) :
  NoDup (User.id <$> l) -> x ∈ l -> y ∈ l -> User.id x = User.id y -> x = y.
Proof.
  intros Hnd [i Hi]%list_elem_of_lookup [j Hj]%list_elem_of_lookup Hid.
  assert (i = j) as ->.
  { apply (NoDup_lookup _ _ _ (User.id x) Hnd);
      rewrite list_lookup_fmap; [rewrite Hi|rewrite Hj]; simpl; congruence. }
  congruence.
Qed.

Lemma stale_id_absent (currentUser : User.t) (now : Z) (prev : list User.t)
    (u : User.t) :
  NoDup (User.id <$> prev) -> u ∈ prev ->
  User.id u <> User.id currentUser ->
  (3000 <= now - User.lastSeenOr0 u)%Z ->
  User.id u ∉ User.id <$> cleanup currentUser now prev.
Proof.
  intros Hnd Hin Hpeer Hstale
    (x & Hid & [Hx Hk]%elem_of_cleanup)%list_elem_of_fmap.
  assert (x = u) as -> by (by apply (same_id_same_entry prev)).
  rewrite (keep_peer _ _ _ Hpeer) in Hk. apply Z.ltb_lt in Hk. lia.
Qed.

(** X1. A cleanup tick at a later time makes an earlier one redundant:
    filtering at [now1] and then at [now2], with [now1] not after [now2],
    gives what filtering at [now2] alone gives. In particular a tick
    repeated at the same time changes nothing more. *)
Theorem cleanup_later_absorbs_earlier (currentUser : User.t) (now1 now2 : Z)
    (prev : list User.t) :
  (now1 <= now2)%Z ->
  cleanup currentUser now2 (cleanup currentUser now1 prev)
  = cleanup currentUser now2 prev.
Proof.
  intros Hle. unfold cleanup. induction prev as [|a prev IH]; simpl; [done|].
  destruct (keep currentUser now1 a) eqn:H1; simpl.
  - by rewrite IH.
  - rewrite IH. destruct (keep currentUser now2 a) eqn:H2; [|done].
    unfold keep in H1, H2.
    destruct (streq (User.id a) (User.id currentUser)); [done|].
    apply Z.ltb_lt in H2. apply Z.ltb_ge in H1. lia.
Qed.

Lemma cleanup_later_absorbs_earlier_witness :
  let me := User.mk [49%N] [65%N] [] true (Some 5%Z) in
  let bob := User.mk [50%N] [66%N] [] true (Some 100%Z) in
  let carol := User.mk [51%N] [67%N] [] true (Some 2000%Z) in
  cleanup me 4000 (cleanup me 3100 [me; bob; carol])
  = cleanup me 4000 [me; bob; carol].
Proof.
  intros me bob carol.
  apply (cleanup_later_absorbs_earlier me 3100 4000 [me; bob; carol]). lia.
Defined.

(** X2. Every entry of the presence list was put there by the code that
    reads the local clock: after any sequence of events an entry is either
    the local user as given to the component, or the user of a received
    [USER_JOIN] or [HEARTBEAT] envelope with [lastSeen] set to the time at
    which that envelope was received. *)
Theorem presence_entries_come_from_receipts (currentUser : User.t)
    (evs : list Event) (u : User.t) :
  u ∈ onlineUsers (run currentUser evs (initial currentUser)) ->
  u = currentUser
  \/ exists now user,
       (Receive now (USER_JOIN user) ∈ evs \/ Receive now (HEARTBEAT user) ∈ evs)
       /\ u = User.withLastSeen user now.
Proof.
  revert u. induction evs as [|ev evs IH] using rev_ind; intros u.
  - simpl. intros ->%list_elem_of_singleton. by left.
  - rewrite run_app. simpl. rewrite step_onlineUsers.
    set (prev := onlineUsers (run currentUser evs (initial currentUser))) in *.
    assert (Hold : u ∈ prev ->
              u = currentUser
              \/ exists now user,
                   (Receive now (USER_JOIN user) ∈ evs ++ [ev]
                    \/ Receive now (HEARTBEAT user) ∈ evs ++ [ev])
                   /\ u = User.withLastSeen user now).
    { intros [->|(now & user & Hev & ->)]%IH; [by left|].
      right. exists now, user. split; [|done].
      destruct Hev; [left|right]; apply elem_of_app; by left. }
    destruct ev as [now [r|user|user|m]|now|now|text|t_id t_ts|rawUrl t_id t_ts
                   |query net t_id t_ts| |serverConfig now]; try done.
    + intros [Hu| ->]%elem_of_receiveUser; [by apply Hold|].
      right. exists now, user. split; [|done]. left.
      apply elem_of_app. right. by apply list_elem_of_singleton.
    + intros [Hu| ->]%elem_of_receiveUser; [by apply Hold|].
      right. exists now, user. split; [|done]. right.
      apply elem_of_app. right. by apply list_elem_of_singleton.
    + intros [Hu _]%elem_of_cleanup. by apply Hold.
Qed.

Lemma presence_entries_come_from_receipts_witness :
  let me := User.mk [49%N] [65%N] [] true (Some 5%Z) in
  let bob := User.mk [50%N] [66%N] [] true (Some 7%Z) in
  let evs := [Receive 100 (HEARTBEAT bob); CleanupTick 200] in
  User.withLastSeen bob 100 = me
  \/ exists now user,
       (Receive now (USER_JOIN user) ∈ evs \/ Receive now (HEARTBEAT user) ∈ evs)
       /\ User.withLastSeen bob 100 = User.withLastSeen user now.
Proof.
  intros me bob evs.
  apply (presence_entries_come_from_receipts me evs (User.withLastSeen bob 100)).
  vm_compute. apply list_elem_of_In. simpl. tauto.
Defined.

(** X4. A heartbeat and the next tick. When the ids of the presence list
    are distinct and a [HEARTBEAT] of another user is received at time [t],
    that user is in the list after a cleanup tick at time [now] exactly when
    fewer than 3000 ms separate [now] from [t]: the sender's own [lastSeen]
    and what the list held for that id before play no part. *)
Theorem heartbeat_then_tick (currentUser : User.t) (st : State)
    (user : User.t) (t now : Z) :
  NoDup (User.id <$> onlineUsers st) ->
  User.id user <> User.id currentUser ->
  User.id user
    ∈ User.id <$> onlineUsers
        (run currentUser [Receive t (HEARTBEAT user); CleanupTick now] st)
  <-> (now - t < 3000)%Z.
Proof.
  intros Hnd Hpeer.
  change (onlineUsers
            (run currentUser [Receive t (HEARTBEAT user); CleanupTick now] st))
    with (cleanup currentUser now (receiveUser t user (onlineUsers st))).
  pose proof (receiveUser_has t user (onlineUsers st)) as Hhas.
  pose proof (receiveUser_NoDup t user _ Hnd) as Hnd'.
  assert (Hkeep : keep currentUser now (User.withLastSeen user t)
                  = Z.ltb (now - t) 3000).
  { rewrite keep_peer by done. by rewrite lastSeenOr0_withLastSeen. }
  split.
  - intros (x & Hid & [Hx Hk]%elem_of_cleanup)%list_elem_of_fmap.
    assert (x = User.withLastSeen user t) as ->
      by (apply (same_id_same_entry _ _ _ Hnd' Hx Hhas); by rewrite <- Hid).
    rewrite Hkeep in Hk. by apply Z.ltb_lt.
  - intros Hfresh. apply list_elem_of_fmap.
    exists (User.withLastSeen user t). split; [done|].
    apply elem_of_cleanup. split; [done|]. rewrite Hkeep. by apply Z.ltb_lt.
Qed.

Lemma heartbeat_then_tick_witness :
  let me := User.mk [49%N] [65%N] [] true (Some 5%Z) in
  let bob := User.mk [50%N] [66%N] [] true (Some 99999%Z) in
  User.id bob
    ∈ User.id <$> onlineUsers
        (run me [Receive 1000 (HEARTBEAT bob); CleanupTick 3999] (initial me))
  <-> (3999 - 1000 < 3000)%Z.
Proof.
  intros me bob.
  apply (heartbeat_then_tick me (initial me) bob 1000 3999).
  - simpl. apply NoDup_singleton.
  - vm_compute. congruence.
Defined.

(** X5. A heartbeat from one session to another. The heartbeat tick of a
    session with an open channel publishes one [HEARTBEAT] envelope; a
    session that receives this envelope at its own time [tB] then lists the
    sender with [lastSeen] equal to [tB], whatever the sender's clock
    [tA] was. *)
Theorem heartbeat_crosses_sessions (userA userB : User.t) (stA stB : State)
    (tA tB : Z) :
  channelClosed stA = false ->
  exists data,
    posted (step userA (HeartbeatTick tA) stA) = posted stA ++ [data]
    /\ User.withLastSeen userA tB
         ∈ onlineUsers (step userB (Receive tB data) stB).
Proof.
  intros Hopen. exists (HEARTBEAT (User.withLastSeen userA tA)). split.
  - simpl. unfold heartbeat, postMessage. by rewrite Hopen.
  - rewrite step_onlineUsers.
    apply (receiveUser_has tB (User.withLastSeen userA tA)).
Qed.

Lemma heartbeat_crosses_sessions_witness :
  let ann := User.mk [49%N] [65%N] [] true (Some 5%Z) in
  let bob := User.mk [50%N] [66%N] [] true (Some 7%Z) in
  exists data,
    posted (step ann (HeartbeatTick 900000) (initial ann))
    = posted (initial ann) ++ [data]
    /\ User.withLastSeen ann 100
         ∈ onlineUsers (step bob (Receive 100 data) (initial bob)).
Proof.
  intros ann bob.
  apply (heartbeat_crosses_sessions ann bob (initial ann) (initial bob) 900000 100).
  reflexivity.
Defined.

(** X6. A peer that was evicted comes back as a new entry. When the ids of
    the list are distinct and a cleanup tick at [now] finds another user's
    entry 3000 ms or more old, an announcement of that id received
    afterwards is appended at the end of what the tick left, with [lastSeen]
    set to the time of receipt. *)
Theorem rejoin_after_eviction (currentUser : User.t) (st : State)
    (u user : User.t) (now t : Z) :
  NoDup (User.id <$> onlineUsers st) ->
  u ∈ onlineUsers st ->
  User.id u <> User.id currentUser ->
  (3000 <= now - User.lastSeenOr0 u)%Z ->
  User.id user = User.id u ->
  onlineUsers (run currentUser [CleanupTick now; Receive t (USER_JOIN user)] st)
  = cleanup currentUser now (onlineUsers st) ++ [User.withLastSeen user t].
Proof.
  intros Hnd Hin Hpeer Hstale Hid.
  change (onlineUsers
            (run currentUser [CleanupTick now; Receive t (USER_JOIN user)] st))
    with (receiveUser t user (cleanup currentUser now (onlineUsers st))).
  apply receiveUser_absent. rewrite Hid. by apply stale_id_absent.
Qed.

Lemma rejoin_after_eviction_witness :
  let me := User.mk [49%N] [65%N] [] true (Some 5%Z) in
  let bob := User.mk [50%N] [66%N] [] true (Some 100%Z) in
  let st := run me [Receive 100 (HEARTBEAT bob)] (initial me) in
  onlineUsers (run me [CleanupTick 3100; Receive 5000 (USER_JOIN bob)] st)
  = cleanup me 3100 (onlineUsers st) ++ [User.withLastSeen bob 5000].
Proof.
  intros me bob st.
  apply (rejoin_after_eviction me st bob bob 3100 5000).
  - vm_compute. apply NoDup_cons. split.
    + intros H%list_elem_of_singleton. congruence.
    + apply NoDup_singleton.
  - vm_compute. apply list_elem_of_In. simpl. tauto.
  - vm_compute. congruence.
  - vm_compute. congruence.
  - reflexivity.
Defined.

(** X3. The presence list never holds two entries of one id: when the ids
    are distinct in a state they are distinct after any sequence of events,
    and they are distinct in the initial state. *)
Theorem presence_ids_stay_distinct (currentUser : User.t) (evs : list Event)
    (st : State) :
  NoDup (User.id <$> onlineUsers st) ->
  NoDup (User.id <$> onlineUsers (run currentUser evs st))
  /\ NoDup (User.id <$> onlineUsers (run currentUser evs (initial currentUser))).
Proof.
  intros Hnd. split.
  - revert st Hnd. induction evs as [|ev evs IH]; intros st Hnd; [done|].
    simpl. apply IH. by apply step_NoDup.
  - clear st Hnd. induction evs as [|ev evs IH] using rev_ind.
    + simpl. apply NoDup_singleton.
    + rewrite run_app. simpl. by apply step_NoDup.
Qed.

Lemma presence_ids_stay_distinct_witness :
  let me := User.mk [49%N] [65%N] [] true (Some 5%Z) in
  let bob := User.mk [50%N] [66%N] [] true None in
  let evs := [Receive 1 (USER_JOIN bob); Receive 2 (HEARTBEAT bob);
              Receive 3 (HEARTBEAT me); CleanupTick 4] in
  NoDup (User.id <$> onlineUsers (run me evs (initial me))).
Proof.
  intros me bob evs.
  apply (presence_ids_stay_distinct me evs (initial me)).
  simpl. apply NoDup_singleton.
Defined.

(** ** The transcript and the channel over several events *)

Lemma handleSendMessageResume_messages (query : jsstring)
    (net : AiService.FetchOutcome) (t_id t_ts : Z) (st : State) :
  exists answer,
    AiService.sendMessageToAi query net = Returned answer
    /\ messages (snd (handleSendMessageResume query net t_id t_ts st))
       = messages st ++ [aiMessage answer t_id t_ts].
Proof.
  destruct (sendMessageToAi_returns query net) as [answer Ha].
  exists answer. split; [done|].
  unfold handleSendMessageResume, tryFinally, bind, await. rewrite Ha.
  unfold setMessages, postMessage, setIsAiThinking. simpl.
  by destruct (channelClosed st).
Qed.

Lemma handleSendMessageWith_messages (cmds : Commands) (currentUser : User.t)
    (t_id t_ts : Z) (st : State) :
  messages (snd (handleSendMessageWith cmds currentUser t_id t_ts st))
  = messages st
    ++ match trim (inputText st) with
       | [] => []
       | _ :: _ => [userMessage currentUser (trim (inputText st)) t_id t_ts]
       end.
Proof.
  destruct (trim (inputText st)) as [|c content] eqn:Hc.
  - rewrite (send_blank _ _ _ _ _ Hc). simpl. by rewrite app_nil_r.
  - rewrite send_messages by (by rewrite Hc). by rewrite Hc.
Qed.




Lemma step_closed (currentUser : User.t) (ev : Event) (st : State) :
  (forall serverConfig now, ev <> Mount serverConfig now) ->
  channelClosed st = true ->
  posted (step currentUser ev st) = posted st
  /\ channelClosed (step currentUser ev st) = true.
Proof.
  intros Hev Hclosed.
  destruct ev as [now [r|u|u|m]|now|now|text|t_id t_ts|rawUrl t_id t_ts
                 |query net t_id t_ts| |serverConfig now]; simpl;
    try (by destruct (Hev serverConfig now)); run_handler.
Qed.

(** X8. After the channel was closed nothing is published: over any
    sequence of events without a new mount (late timers, late assistant
    replies, further sends), the list of published envelopes stays as it was
    and the channel stays closed. *)
Theorem closed_channel_publishes_nothing (currentUser : User.t)
    (evs : list Event) (st : State) :
  (forall serverConfig now, Mount serverConfig now ∉ evs) ->
  channelClosed st = true ->
  posted (run currentUser evs st) = posted st
  /\ channelClosed (run currentUser evs st) = true.
Proof.
  revert st. induction evs as [|ev evs IH]; intros st Hev Hclosed; [done|].
  simpl. destruct (step_closed currentUser ev st) as [Hposted Hstill];
    [|done|].
  { intros sc now ->. apply (Hev sc now). apply list_elem_of_here. }
  rewrite <- Hposted. apply IH; [|done].
  intros sc now Hin. apply (Hev sc now). by apply list_elem_of_further.
Qed.

Lemma closed_channel_publishes_nothing_witness :
  let me := User.mk [49%N] [65%N] [] true (Some 5%Z) in
  let st := run me [Input [64; 24029; 23567; 20892]%N; Send 1 2; Unmount]
              (initial me) in
  let evs := [AiReply [20320; 22909]%N AiService.FetchRejected 3 4;
              MovieReply [120%N] 5 6; HeartbeatTick 7] in
  posted (run me evs st) = posted st.
Proof.
  intros me st evs.
  apply (closed_channel_publishes_nothing me evs st).
  - intros sc now H. apply list_elem_of_In in H. simpl in H.
    intuition discriminate.
  - reflexivity.
Defined.

Lemma handleSendMessageOf_rendered (cmds : Commands) (currentUser : User.t)
    (t_id t_ts : Z) (st : State) :
  Render.handleSendMessageOf cmds currentUser (inputText st) t_id t_ts st
  = handleSendMessageWith cmds currentUser t_id t_ts st.
Proof.
  unfold Render.handleSendMessageOf, handleSendMessageWith.
  by destruct (truthyStr (trim (inputText st))).
Qed.

(** The closure of a render with a non-blank text sends that text in
    whatever state it is called, on an open channel. *)
Lemma handleSendMessageOf_sends (cmds : Commands) (currentUser : User.t)
    (rendered : jsstring) (t_id t_ts : Z) (st : State) :
  trim rendered <> [] -> channelClosed st = false ->
  messages (snd (Render.handleSendMessageOf cmds currentUser rendered t_id t_ts st))
  = messages st ++ [userMessage currentUser (trim rendered) t_id t_ts]
  /\ posted (snd (Render.handleSendMessageOf cmds currentUser rendered t_id t_ts st))
     = posted st
       ++ [NEW_MESSAGE (userMessage currentUser (trim rendered) t_id t_ts)].
Proof.
  intros Hne%truthyStr_true_iff Hopen. unfold Render.handleSendMessageOf.
  rewrite Hne. cbn [negb].
  unfold bind, setMessages, postMessage, setInputText, setShowEmojiPicker,
    setIsAiThinking, ret.
  simpl. rewrite Hopen.
  destruct (startsWith (trim rendered) (moviePrefix cmds)).
  - by destruct (truthyStr (movieTarget cmds (trim rendered))).
  - by destruct (match_ (trim rendered) (aiRegex cmds)).
Qed.

(** X9. A second send needs a render to be harmless. The send handler is
    the closure of one render and reads the input text of that render. On
    an open channel, once the first call has been rendered, the handler of
    the new render does nothing at all (the input text was cleared); but
    the same closure called a second time before that render sends the
    text again: the transcript and the channel get the message twice. *)
Theorem second_send_needs_a_render (cmds : Commands) (currentUser : User.t)
    (t1 t2 t3 t4 : Z) (st : State) :
  channelClosed st = false ->
  let handler := Render.handleSendMessageOf cmds currentUser (inputText st) in
  let sent := snd (handler t1 t2 st) in
  let text := trim (inputText st) in
  Render.handleSendMessageOf cmds currentUser (inputText sent) t3 t4 sent
  = (Returned Finished, sent)
  /\ (text <> [] ->
      messages (snd (handler t3 t4 sent))
      = messages st ++ [userMessage currentUser text t1 t2;
                        userMessage currentUser text t3 t4]
      /\ posted (snd (handler t3 t4 sent))
         = posted st ++ [NEW_MESSAGE (userMessage currentUser text t1 t2);
                         NEW_MESSAGE (userMessage currentUser text t3 t4)]).
Proof.
  intros Hopen handler sent text.
  assert (Hsent : sent = snd (handleSendMessageWith cmds currentUser t1 t2 st)).
  { unfold sent, handler. by rewrite handleSendMessageOf_rendered. }
  split.
  - rewrite handleSendMessageOf_rendered. apply send_blank. rewrite Hsent.
    destruct (trim (inputText st)) as [|c content] eqn:Hc.
    + by rewrite (send_blank _ _ _ _ _ Hc).
    + assert (Hne : trim (inputText st) <> []) by (by rewrite Hc).
      destruct (startsWith (trim (inputText st)) (moviePrefix cmds)) eqn:Hpre.
      * by rewrite (send_movie _ _ _ _ _ Hne Hopen Hpre).
      * by rewrite (send_other _ _ _ _ _ Hne Hopen Hpre).
  - intros Hne.
    assert (Hmsgs : messages sent
                    = messages st ++ [userMessage currentUser text t1 t2])
      by (rewrite Hsent; by apply send_messages).
    assert (Hposted : posted sent
                      = posted st ++ [NEW_MESSAGE (userMessage currentUser text t1 t2)])
      by (rewrite Hsent; by apply send_posted_open).
    assert (Hopen' : channelClosed sent = false).
    { rewrite Hsent.
      destruct (startsWith (trim (inputText st)) (moviePrefix cmds)) eqn:Hpre.
      - by rewrite (send_movie _ _ _ _ _ Hne Hopen Hpre).
      - by rewrite (send_other _ _ _ _ _ Hne Hopen Hpre). }
    destruct (handleSendMessageOf_sends cmds currentUser (inputText st) t3 t4
                sent Hne Hopen') as [Hm Hp].
    fold handler text in Hm, Hp. rewrite Hm, Hp, Hmsgs, Hposted.
    by rewrite <- !app_assoc.
Qed.

Lemma second_send_needs_a_render_witness :
  let me := User.mk [49%N] [65%N] [] true (Some 5%Z) in
  let st := snd (setInputText [104%N; 105%N] (initial me)) in
  let handler := Render.handleSendMessageOf sourceCommands me (inputText st) in
  let sent := snd (handler 1%Z 2%Z st) in
  Render.handleSendMessageOf sourceCommands me (inputText sent) 3%Z 4%Z sent
  = (Returned Finished, sent)
  /\ messages (snd (handler 3%Z 4%Z sent))
     = [userMessage me [104%N; 105%N] 1 2; userMessage me [104%N; 105%N] 3 4].
Proof.
  intros me st handler sent.
  destruct (second_send_needs_a_render sourceCommands me 1 2 3 4 st eq_refl)
    as [Hnoop Htwice].
  split; [exact Hnoop|].
  destruct Htwice as [Hmsgs _]; [vm_compute; congruence|exact Hmsgs].
Defined.

(** ** What is sent *)

Lemma trimEnd_prefix (s : jsstring) :
  exists ws, s = trimEnd s ++ ws /\ forallb isSpace ws = true.
Proof.
  destruct (trimStart_suffix (rev s)) as (ws & Hs & Hws).
  exists (rev ws). split; [|by rewrite forallb_rev].
  unfold trimEnd. rewrite <- rev_app_distr, <- Hs. by rewrite rev_involutive.
Qed.

Lemma trimStart_idem (s : jsstring) : trimStart (trimStart s) = trimStart s.
Proof. apply trimStart_no_space, trimStart_head. Qed.

Lemma trimEnd_idem (s : jsstring) : trimEnd (trimEnd s) = trimEnd s.
Proof. unfold trimEnd. by rewrite rev_involutive, trimStart_idem. Qed.

(** Trimming the end keeps a first code unit that is not white space. *)
Lemma trimEnd_head (s : jsstring) :
  match s with c :: _ => isSpace c = false | [] => True end ->
  match trimEnd s with c :: _ => isSpace c = false | [] => True end.
Proof.
  intros Hs. destruct (trimEnd_prefix s) as (ws & Heq & _).
  destruct (trimEnd s) as [|c r]; [done|]. by rewrite Heq in Hs.
Qed.

Lemma trimEnd_cons (c : N) (s : jsstring) :
  isSpace c = false -> exists r, trimEnd (c :: s) = c :: r.
Proof.
  intros Hc. destruct (trimEnd_prefix (c :: s)) as (ws & Heq & Hws).
  destruct (trimEnd (c :: s)) as [|c' r].
  - simpl in Heq. subst ws. simpl in Hws. by rewrite Hc in Hws.
  - injection Heq as -> _. by exists r.
Qed.

Lemma trim_idem (s : jsstring) : trim (trim s) = trim s.
Proof.
  unfold trim.
  rewrite (trimStart_no_space (trimEnd (trimStart s)))
    by apply trimEnd_head, trimStart_head.
  apply trimEnd_idem.
Qed.

(** X10. What the send handler publishes is never blank and never padded:
    every envelope it adds to the channel is a [NEW_MESSAGE] of the local
    user whose text is non-empty and is its own trimmed form (no white
    space at either end). *)
Theorem published_text_is_trimmed_and_nonblank (cmds : Commands)
    (currentUser : User.t) (t_id t_ts : Z) (st : State) (data : Envelope) :
  data ∈ posted (snd (handleSendMessageWith cmds currentUser t_id t_ts st)) ->
  data ∈ posted st
  \/ exists text,
       data = NEW_MESSAGE (userMessage currentUser text t_id t_ts)
       /\ text <> [] /\ trim text = text.
Proof.
  destruct (trim (inputText st)) as [|c content] eqn:Hc.
  - rewrite (send_blank _ _ _ _ _ Hc). by left.
  - assert (Hne : trim (inputText st) <> []) by (by rewrite Hc).
    destruct (channelClosed st) eqn:Hclosed.
    + intros Hin. left. revert Hin.
      unfold handleSendMessageWith. rewrite Hc. cbn [truthyStr negb].
      unfold bind, setMessages, postMessage. simpl. by rewrite Hclosed.
    + assert (Hposted :
        posted (snd (handleSendMessageWith cmds currentUser t_id t_ts st))
        = posted st
          ++ [NEW_MESSAGE (userMessage currentUser (trim (inputText st)) t_id t_ts)]).
      { destruct (startsWith (trim (inputText st)) (moviePrefix cmds)) eqn:Hpre.
        - by rewrite (send_movie _ _ _ _ _ Hne Hclosed Hpre).
        - by rewrite (send_other _ _ _ _ _ Hne Hclosed Hpre). }
      rewrite Hposted.
      intros [Hold|Hnew%list_elem_of_singleton]%elem_of_app; [by left|].
      right. exists (trim (inputText st)).
      split; [done|]. split; [done|apply trim_idem].
Qed.

Lemma published_text_is_trimmed_and_nonblank_witness :
  let me := User.mk [49%N] [65%N] [] true (Some 5%Z) in
  let st := snd (setInputText [32; 104; 105; 10]%N (initial me)) in
  let data := NEW_MESSAGE (userMessage me [104; 105]%N 1 2) in
  data ∈ posted st
  \/ exists text,
       data = NEW_MESSAGE (userMessage me text 1 2)
       /\ text <> [] /\ trim text = text.
Proof.
  intros me st data.
  apply (published_text_is_trimmed_and_nonblank sourceCommands me 1 2 st data).
  vm_compute. apply list_elem_of_here.
Defined.

(** ** When the bots are triggered *)

(** X11. A text that starts with neither command prefix triggers no bot:
    on an open channel the handler returns with nothing pending and the
    thinking flag as it was. *)
Theorem plain_text_triggers_no_bot (cmds : Commands) (currentUser : User.t)
    (t_id t_ts : Z) (st : State) :
  channelClosed st = false ->
  startsWith (trim (inputText st)) (moviePrefix cmds) = false ->
  startsWith (trim (inputText st)) (aiPrefix cmds) = false ->
  fst (handleSendMessageWith cmds currentUser t_id t_ts st) = Returned Finished
  /\ isAiThinking (snd (handleSendMessageWith cmds currentUser t_id t_ts st))
     = isAiThinking st.
Proof.
  intros Hopen Hmovie Hai.
  destruct (trim (inputText st)) as [|c content] eqn:Hc.
  - by rewrite (send_blank _ _ _ _ _ Hc).
  - assert (Hne : trim (inputText st) <> []) by (by rewrite Hc).
    rewrite <- Hc in Hmovie, Hai.
    rewrite (send_other _ _ _ _ _ Hne Hopen Hmovie).
    rewrite match_aiRegex, Hai. done.
Qed.

Lemma plain_text_triggers_no_bot_witness :
  let me := User.mk [49%N] [65%N] [] true (Some 5%Z) in
  let st := snd (setInputText ([104; 105; 32]%N ++ aiPrefix sourceCommands)
                   (initial me)) in
  fst (handleSendMessageWith sourceCommands me 1 2 st) = Returned Finished
  /\ isAiThinking (snd (handleSendMessageWith sourceCommands me 1 2 st))
     = isAiThinking st.
Proof.
  intros me st.
  apply (plain_text_triggers_no_bot sourceCommands me 1 2 st); reflexivity.
Defined.

(** X12. An assistant command that runs over a line break is not a
    command. When the text after the assistant prefix and the white space
    that follows it holds a line terminator, the pattern does not match: on
    an open channel the handler returns with nothing pending and the
    assistant is not called. *)
Theorem multiline_assistant_text_is_ignored (cmds : Commands)
    (currentUser : User.t) (t_id t_ts : Z) (st : State) (tail : jsstring) :
  channelClosed st = false ->
  trim (inputText st) = aiPrefix cmds ++ tail ->
  startsWith (trim (inputText st)) (moviePrefix cmds) = false ->
  existsb isLineTerminator (trimStart tail) = true ->
  fst (handleSendMessageWith cmds currentUser t_id t_ts st) = Returned Finished
  /\ isAiThinking (snd (handleSendMessageWith cmds currentUser t_id t_ts st))
     = isAiThinking st.
Proof.
  intros Hopen Hcontent Hmovie Hbreak.
  assert (Hdot : forallb isDot (trimStart tail) = false).
  { apply not_true_is_false. intros Hall.
    apply existsb_exists in Hbreak as (c & Hc & Hterm).
    rewrite forallb_forall in Hall. specialize (Hall c Hc).
    unfold isDot in Hall. by rewrite Hterm in Hall. }
  destruct (trim (inputText st)) as [|c content] eqn:Hc.
  - by rewrite (send_blank _ _ _ _ _ Hc).
  - assert (Hne : trim (inputText st) <> []) by (by rewrite Hc).
    rewrite <- Hc in Hmovie, Hcontent.
    rewrite (send_other _ _ _ _ _ Hne Hopen Hmovie).
    rewrite match_aiRegex, Hcontent, startsWith_app, drop_app_length, Hdot.
    done.
Qed.

Lemma multiline_assistant_text_is_ignored_witness :
  let me := User.mk [49%N] [65%N] [] true (Some 5%Z) in
  let st := snd (setInputText (aiPrefix sourceCommands ++ [32; 97; 10; 98]%N)
                   (initial me)) in
  fst (handleSendMessageWith sourceCommands me 1 2 st) = Returned Finished
  /\ isAiThinking (snd (handleSendMessageWith sourceCommands me 1 2 st))
     = isAiThinking st.
Proof.
  intros me st.
  apply (multiline_assistant_text_is_ignored sourceCommands me 1 2 st
           [32; 97; 10; 98]%N); reflexivity.
Defined.

(** X13. A movie timer is armed only by a movie command with a target:
    when the handler returns a pending timer, its delay is 600 ms, the sent
    content starts with the movie prefix, and the address carried by the
    timer is the non-empty target of that content. *)
Theorem movie_timer_only_for_movie_command (cmds : Commands)
    (currentUser : User.t) (t_id t_ts : Z) (st : State) (delay : Z)
    (rawUrl : jsstring) :
  fst (handleSendMessageWith cmds currentUser t_id t_ts st)
  = Returned (MovieTimer delay rawUrl) ->
  delay = 600%Z
  /\ startsWith (trim (inputText st)) (moviePrefix cmds) = true
  /\ rawUrl = Spec.rawTarget cmds (trim (inputText st))
  /\ rawUrl <> [].
Proof.
  destruct (trim (inputText st)) as [|c content] eqn:Hc.
  { by rewrite (send_blank _ _ _ _ _ Hc). }
  assert (Hne : trim (inputText st) <> []) by (by rewrite Hc).
  rewrite <- Hc.
  destruct (channelClosed st) eqn:Hclosed.
  { by rewrite (send_closed _ _ _ _ _ Hne Hclosed). }
  destruct (startsWith (trim (inputText st)) (moviePrefix cmds)) eqn:Hpre.
  - rewrite (send_movie _ _ _ _ _ Hne Hclosed Hpre). cbn [fst].
    rewrite (movieTarget_spec _ _ Hpre).
    destruct (truthyStr (Spec.rawTarget cmds (trim (inputText st)))) eqn:Ht;
      [|done].
    intros [= <- <-]. repeat split. by apply truthyStr_true_iff.
  - rewrite (send_other _ _ _ _ _ Hne Hclosed Hpre). cbn [fst].
    by destruct (match_ _ _).
Qed.

Lemma movie_timer_only_for_movie_command_witness :
  let me := User.mk [49%N] [65%N] [] true (Some 5%Z) in
  let st := snd (setInputText (moviePrefix sourceCommands ++ [32; 120]%N)
                   (initial me)) in
  [120%N] = Spec.rawTarget sourceCommands (trim (inputText st)).
Proof.
  intros me st.
  apply (movie_timer_only_for_movie_command sourceCommands me 1 2 st 600 [120%N]).
  reflexivity.
Defined.

(** X14. The assistant is called only on an assistant command, and never
    with an empty question: when the handler suspends on the assistant
    call, the sent content does not start with the movie prefix, it matches
    the assistant pattern, the query is the capture or, for an empty
    capture, the default phrase, and with the source's commands the query is
    not empty. *)
Theorem assistant_called_only_on_match (cmds : Commands) (currentUser : User.t)
    (t_id t_ts : Z) (st : State) (query : jsstring) :
  fst (handleSendMessageWith cmds currentUser t_id t_ts st)
  = Returned (AwaitingAi query) ->
  startsWith (trim (inputText st)) (moviePrefix cmds) = false
  /\ (exists capture,
        Spec.assistantCapture cmds (trim (inputText st)) capture
        /\ query = match capture with
                   | [] => defaultQuery cmds
                   | _ :: _ => capture
                   end)
  /\ (cmds = sourceCommands -> query <> []).
Proof.
  destruct (trim (inputText st)) as [|c content] eqn:Hc.
  { by rewrite (send_blank _ _ _ _ _ Hc). }
  assert (Hne : trim (inputText st) <> []) by (by rewrite Hc).
  rewrite <- Hc.
  destruct (channelClosed st) eqn:Hclosed.
  { by rewrite (send_closed _ _ _ _ _ Hne Hclosed). }
  destruct (startsWith (trim (inputText st)) (moviePrefix cmds)) eqn:Hpre.
  { rewrite (send_movie _ _ _ _ _ Hne Hclosed Hpre). cbn [fst].
    by destruct (truthyStr _). }
  rewrite (send_other _ _ _ _ _ Hne Hclosed Hpre). cbn [fst].
  destruct (match_ (trim (inputText st)) (aiRegex cmds)) as [aiMatch|] eqn:Hm;
    [|done].
  pose proof (match_aiRegex_shape _ _ _ Hm) as Hshape.
  intros [= <-]. split; [done|].
  assert (Hquery : aiQuery cmds aiMatch
                   = match nth 1 aiMatch [] with
                     | [] => defaultQuery cmds
                     | _ :: _ => nth 1 aiMatch []
                     end).
  { unfold aiQuery. by destruct (nth 1 aiMatch []). }
  split.
  - exists (nth 1 aiMatch []). split; [|done].
    apply assistantCapture_iff. by rewrite Hm, Hshape at 1.
  - intros ->. rewrite Hquery. by destruct (nth 1 aiMatch []).
Qed.

Lemma assistant_called_only_on_match_witness :
  let me := User.mk [49%N] [65%N] [] true (Some 5%Z) in
  let st := snd (setInputText (aiPrefix sourceCommands) (initial me)) in
  startsWith (trim (inputText st)) (moviePrefix sourceCommands) = false.
Proof.
  intros me st.
  apply (assistant_called_only_on_match sourceCommands me 1 2 st
           (defaultQuery sourceCommands)).
  reflexivity.
Defined.

(** X15. The value returned by [sendMessageToAi] is truthy, whatever the
    request comes to: it is never [undefined], [null], [false], zero or the
    empty string (it is one of the fixed non-empty strings, or a truthy
    content of the response, taken as it is). *)
Theorem assistant_answer_is_truthy (userMessage : jsstring)
    (net : AiService.FetchOutcome) (answer : JsValue) :
  AiService.sendMessageToAi userMessage net = Returned answer ->
  truthy answer = true.
Proof.
  destruct net as [|[|] [data|]]; try (by intros [= <-]).
  rewrite sendMessageToAi_ok. intros [= <-].
  destruct (isNullish data); [done|]. unfold or.
  by destruct (truthy (default VUndefined (AiService.contentPath data))) eqn:E.
Qed.

Lemma assistant_answer_is_truthy_witness :
  truthy (VStr AiService.NOTHING_TO_SAY) = true.
Proof.
  apply (assistant_answer_is_truthy [104%N]
           (AiService.Response true
              (Some (VObj [(lit "choices", VArr [])])))).
  reflexivity.
Defined.

(** ** The quick-action buttons *)

Lemma trimStart_app_nonblank (s t : jsstring) :
  trimStart s <> [] -> trimStart (s ++ t) = trimStart s ++ t.
Proof.
  induction s as [|c s IH]; simpl; [done|].
  destruct (isSpace c); [apply IH|done].
Qed.

Lemma trimEnd_app_space (s ws : jsstring) :
  forallb isSpace ws = true -> trimEnd (s ++ ws) = trimEnd s.
Proof.
  intros Hws. unfold trimEnd. rewrite rev_app_distr.
  rewrite trimStart_app_space; [done|]. by rewrite forallb_rev.
Qed.

Lemma trim_app_space_r (s ws : jsstring) :
  forallb isSpace ws = true -> trim (s ++ ws) = trim s.
Proof.
  intros Hws. unfold trim. destruct (trimStart s) as [|c r] eqn:Hs.
  - apply trimStart_nil_iff in Hs.
    assert (Hall : trimStart (s ++ ws) = []).
    { apply trimStart_nil_iff. by rewrite forallb_app, Hs, Hws. }
    by rewrite Hall.
  - rewrite trimStart_app_nonblank by (by rewrite Hs). rewrite Hs.
    by apply trimEnd_app_space.
Qed.

Lemma trim_app_space_l (ws s : jsstring) :
  forallb isSpace ws = true -> trim (ws ++ s) = trim s.
Proof. intros Hws. unfold trim. by rewrite trimStart_app_space. Qed.

Lemma trim_head (s : jsstring) :
  match trim s with c :: _ => isSpace c = false | [] => True end.
Proof. apply trimEnd_head, trimStart_head. Qed.

Lemma insertCommand_state (command : jsstring) (st : State) :
  channelClosed (snd (insertCommand command st)) = channelClosed st
  /\ isAiThinking (snd (insertCommand command st)) = isAiThinking st
  /\ messages (snd (insertCommand command st)) = messages st
  /\ posted (snd (insertCommand command st)) = posted st.
Proof. done. Qed.

(** X16. A quick-action button pressed on a blank input gives the bare
    command: when the input text is empty or white space only, the text
    after [insertCommand] trims to the trimmed command. Sent at once on an
    open channel, the assistant button's command calls the assistant with
    the default question, and the movie button's command arms no timer (its
    target is empty). *)
Theorem quick_action_on_blank_input (command : jsstring)
    (currentUser : User.t) (t_id t_ts : Z) (st : State) :
  forallb isSpace (inputText st) = true ->
  channelClosed st = false ->
  let typed := snd (insertCommand command st) in
  trim (inputText typed) = trim command
  /\ (command = aiPrefix sourceCommands ->
      fst (handleSendMessage currentUser t_id t_ts typed)
      = Returned (AwaitingAi (defaultQuery sourceCommands)))
  /\ (command = moviePrefix sourceCommands ->
      fst (handleSendMessage currentUser t_id t_ts typed) = Returned Finished).
Proof.
  intros Hblank Hopen typed.
  assert (Htyped : trim (inputText typed) = trim command).
  { unfold typed, insertCommand. cbn [snd setInputText inputText].
    destruct (inputText st) as [|c s] eqn:Hin; cbn [truthyStr negb].
    - by apply trim_app_space_r.
    - rewrite (proj2 (trim_nil_iff (c :: s)) Hblank). cbn [app].
      rewrite (trim_app_space_l [32%N]) by done.
      by apply trim_app_space_r. }
  assert (Hopen' : channelClosed typed = false) by done.
  split; [done|]. split; intros ->.
  - assert (Hne : trim (inputText typed) <> []) by (by rewrite Htyped).
    assert (Hpre : startsWith (trim (inputText typed))
                     (moviePrefix sourceCommands) = false)
      by (by rewrite Htyped).
    unfold handleSendMessage.
    rewrite (send_other _ _ _ _ _ Hne Hopen' Hpre). by rewrite Htyped.
  - assert (Hne : trim (inputText typed) <> []) by (by rewrite Htyped).
    assert (Hpre : startsWith (trim (inputText typed))
                     (moviePrefix sourceCommands) = true)
      by (by rewrite Htyped).
    unfold handleSendMessage.
    rewrite (send_movie _ _ _ _ _ Hne Hopen' Hpre). by rewrite Htyped.
Qed.

Lemma quick_action_on_blank_input_witness :
  let me := User.mk [49%N] [65%N] [] true (Some 5%Z) in
  let st := snd (setInputText [32; 32]%N (initial me)) in
  trim (inputText (snd (insertCommand (aiPrefix sourceCommands) st)))
  = trim (aiPrefix sourceCommands).
Proof.
  intros me st.
  apply (quick_action_on_blank_input (aiPrefix sourceCommands) me 1 2 st);
    reflexivity.
Defined.

(** X17. A quick-action button pressed after a text puts the command
    behind that text, where it is no command: when the trimmed input starts
    with a code unit other than [@], the text after [insertCommand], sent on
    an open channel, triggers neither bot, whichever command was
    inserted. *)
Theorem quick_action_after_text_triggers_no_bot (command : jsstring)
    (currentUser : User.t) (t_id t_ts : Z) (st : State) (c : N)
    (text : jsstring) :
  channelClosed st = false ->
  trim (inputText st) = c :: text ->
  c <> 64%N ->
  let typed := snd (insertCommand command st) in
  fst (handleSendMessage currentUser t_id t_ts typed) = Returned Finished
  /\ isAiThinking (snd (handleSendMessage currentUser t_id t_ts typed))
     = isAiThinking st.
Proof.
  intros Hopen Htrim Hc typed.
  assert (Hspace : isSpace c = false).
  { pose proof (trim_head (inputText st)) as Hhead. by rewrite Htrim in Hhead. }
  assert (Htyped : exists r, trim (inputText typed) = c :: r).
  { unfold typed, insertCommand. cbn [snd setInputText inputText].
    destruct (inputText st) as [|x s] eqn:Hin; [done|].
    cbn [truthyStr negb]. rewrite Htrim. unfold trim.
    cbn [app trimStart]. rewrite Hspace. by apply trimEnd_cons. }
  destruct Htyped as [r Hr].
  assert (Hopen' : channelClosed typed = false) by done.
  assert (Hne : trim (inputText typed) <> []) by (by rewrite Hr).
  assert (Hhead : N.eqb c 64 = false) by (by apply N.eqb_neq).
  assert (Hpre : startsWith (trim (inputText typed))
                   (moviePrefix sourceCommands) = false).
  { rewrite Hr. simpl. by rewrite Hhead. }
  unfold handleSendMessage. rewrite (send_other _ _ _ _ _ Hne Hopen' Hpre).
  rewrite match_aiRegex.
  assert (Hai : startsWith (trim (inputText typed)) (aiPrefix sourceCommands)
                = false).
  { rewrite Hr. simpl. by rewrite Hhead. }
  by rewrite Hai.
Qed.

Lemma quick_action_after_text_triggers_no_bot_witness :
  let me := User.mk [49%N] [65%N] [] true (Some 5%Z) in
  let st := snd (setInputText [104; 105]%N (initial me)) in
  let typed := snd (insertCommand (aiPrefix sourceCommands) st) in
  fst (handleSendMessage me 1 2 typed) = Returned Finished
  /\ isAiThinking (snd (handleSendMessage me 1 2 typed)) = isAiThinking st.
Proof.
  intros me st typed.
  apply (quick_action_after_text_triggers_no_bot (aiPrefix sourceCommands)
           me 1 2 st 104%N [105%N]).
  - reflexivity.
  - reflexivity.
  - discriminate.
Defined.

(** ** The login form and the list of known nicknames *)

Lemma includes_true_iff (l : list jsstring) (x : jsstring) :
  App.includes l x = true <-> x ∈ l.
Proof.
  unfold App.includes. rewrite existsb_exists. split.
  - intros (y & Hy & ->%streq_true_iff). by apply list_elem_of_In.
  - intros Hx. exists x. split; [by apply list_elem_of_In|apply streq_refl].
Qed.

Lemma includes_false_iff (l : list jsstring) (x : jsstring) :
  App.includes l x = false <-> x ∉ l.
Proof.
  rewrite <- includes_true_iff. by destruct (App.includes l x).
Qed.

Lemma addNickname_spec (nickname : jsstring) (prev : list jsstring) :
  exists added,
    App.addNickname nickname prev = prev ++ added
    /\ nickname ∈ App.addNickname nickname prev
    /\ (NoDup prev -> NoDup (App.addNickname nickname prev)).
Proof.
  unfold App.addNickname. destruct (App.includes prev nickname) eqn:E.
  - exists []. rewrite app_nil_r. apply includes_true_iff in E. done.
  - exists [nickname]. apply includes_false_iff in E. split; [done|]. split.
    + apply elem_of_app. right. by apply list_elem_of_singleton.
    + intros Hnd. apply NoDup_app. split; [done|]. split.
      * intros x Hx ->%list_elem_of_singleton. done.
      * apply NoDup_singleton.
Qed.

Lemma app_onmessage_grows (data : Envelope) (st : App.State) :
  exists added,
    App.existingNicknames (App.onmessage data st)
    = App.existingNicknames st ++ added
    /\ (NoDup (App.existingNicknames st) ->
        NoDup (App.existingNicknames (App.onmessage data st))).
Proof.
  destruct data as [r|user|user|m]; simpl;
    try (exists []; by rewrite app_nil_r);
    destruct (addNickname_spec (User.nickname user) (App.existingNicknames st))
      as (added & Heq & _ & Hnd); by exists added.
Qed.

Lemma receiveAll_grows (datas : list Envelope) (st : App.State) :
  exists added,
    App.existingNicknames (App.receiveAll datas st)
    = App.existingNicknames st ++ added
    /\ (NoDup (App.existingNicknames st) ->
        NoDup (App.existingNicknames (App.receiveAll datas st))).
Proof.
  revert st. induction datas as [|data datas IH]; intros st; simpl.
  - exists []. by rewrite app_nil_r.
  - destruct (app_onmessage_grows data st) as (a1 & H1 & Hnd1).
    destruct (IH (App.onmessage data st)) as (a2 & H2 & Hnd2).
    exists (a1 ++ a2). rewrite H2, H1, app_assoc. split; [done|].
    intros Hnd. rewrite <- H1, <- H2. auto.
Qed.

Lemma receiveAll_records (datas : list Envelope) (st : App.State)
    (data : Envelope) (user : User.t) :
  data ∈ datas ->
  data = USER_JOIN user \/ data = HEARTBEAT user ->
  User.nickname user ∈ App.existingNicknames (App.receiveAll datas st).
Proof.
  revert st. induction datas as [|d datas IH]; intros st Hin Hdata.
  - by apply elem_of_nil in Hin.
  - simpl. apply elem_of_cons in Hin as [<-|Hin]; [|by apply IH].
    destruct (receiveAll_grows datas (App.onmessage data st)) as (added & -> & _).
    apply elem_of_app. left.
    destruct (addNickname_spec (User.nickname user) (App.existingNicknames st))
      as (_ & _ & Hhas & _).
    by destruct Hdata as [-> | ->].
Qed.

(** X21. The list of known nicknames kept by [App] only grows and holds no
    nickname twice: over any sequence of received envelopes the list at the
    start is a prefix of the list at the end, and a list without duplicates
    stays without duplicates. *)
Theorem known_nicknames_grow_without_duplicates (datas : list Envelope)
    (st : App.State) :
  NoDup (App.existingNicknames st) ->
  App.existingNicknames st
    `prefix_of` App.existingNicknames (App.receiveAll datas st)
  /\ NoDup (App.existingNicknames (App.receiveAll datas st)).
Proof.
  intros Hnd. destruct (receiveAll_grows datas st) as (added & Heq & Hnd').
  split; [|by apply Hnd']. rewrite Heq. by apply prefix_app_r.
Qed.

Lemma known_nicknames_grow_without_duplicates_witness :
  let ann := User.mk [49%N] [65%N] [] true None in
  let bob := User.mk [50%N] [66%N] [] true None in
  NoDup (App.existingNicknames
           (App.receiveAll [USER_JOIN ann; HEARTBEAT ann; HEARTBEAT bob;
                            REQUEST_USERS [103%N]] App.initial)).
Proof.
  intros ann bob.
  apply (known_nicknames_grow_without_duplicates
           [USER_JOIN ann; HEARTBEAT ann; HEARTBEAT bob; REQUEST_USERS [103%N]]
           App.initial).
  apply NoDup_nil. done.
Defined.

(** X18. The form logs in only under a fresh, trimmed nickname: when
    [handleLogin] calls [onLogin], the nickname passed is the trimmed input,
    it is not empty, it has no white space at either end, it is not among
    the known nicknames, the server passed is the entry of [SERVER_LIST]
    with the selected id, and no error is shown. *)
Theorem login_only_with_fresh_trimmed_nickname (existing : list jsstring)
    (st : Login.State) (name : jsstring) (server : ServerConfig.t) :
  snd (Login.handleLogin existing st) = Some (name, server) ->
  name = trim (Login.nickname st)
  /\ name <> [] /\ trim name = name
  /\ (name ∉ existing)
  /\ server ∈ SERVER_LIST
  /\ ServerConfig.id server = Login.selectedServerId st
  /\ Login.error (fst (Login.handleLogin existing st)) = [].
Proof.
  unfold Login.handleLogin. cbn [Login.setError Login.nickname
    Login.selectedServerId].
  destruct (truthyStr (trim (Login.nickname st))) eqn:Hne; cbn [negb]; [|done].
  destruct (App.includes existing (trim (Login.nickname st))) eqn:Hinc; [done|].
  destruct (find _ SERVER_LIST) as [found|] eqn:Hfind; [|done].
  cbn [snd fst]. intros [= <- <-].
  apply find_some in Hfind as [Hin Hid%streq_true_iff].
  split; [done|]. split; [by apply truthyStr_true_iff|].
  split; [apply trim_idem|]. split; [by apply includes_false_iff|].
  split; [by apply list_elem_of_In|]. done.
Qed.

Lemma login_only_with_fresh_trimmed_nickname_witness :
  let st := Login.mkState [32; 65; 110; 110; 32]%N (lit "srv-2") [120%N] in
  [65; 110; 110]%N = trim (Login.nickname st).
Proof.
  intros st.
  apply (login_only_with_fresh_trimmed_nickname [[66%N]] st [65; 110; 110]%N
           (nth 1 SERVER_LIST (ServerConfig.mk [] [] []))).
  reflexivity.
Defined.

(** X19. A nickname heard on the channel cannot be taken again: once the
    listener of [App] has received a [USER_JOIN] or [HEARTBEAT] carrying a
    non-empty nickname, the form rejects every input that trims to that
    nickname, with the "nickname taken" error and without calling
    [onLogin]. *)
Theorem heard_nickname_is_rejected (datas : list Envelope) (app : App.State)
    (data : Envelope) (user : User.t) (st : Login.State) :
  data ∈ datas ->
  data = USER_JOIN user \/ data = HEARTBEAT user ->
  User.nickname user <> [] ->
  trim (Login.nickname st) = User.nickname user ->
  Login.handleLogin (App.existingNicknames (App.receiveAll datas app)) st
  = ({| Login.nickname := Login.nickname st;
        Login.selectedServerId := Login.selectedServerId st;
        Login.error := Login.NICKNAME_TAKEN |}, None).
Proof.
  intros Hin Hdata Hne Htrim.
  pose proof (receiveAll_records datas app data user Hin Hdata) as Hknown.
  apply includes_true_iff in Hknown.
  unfold Login.handleLogin. cbn [Login.setError Login.nickname
    Login.selectedServerId]. rewrite Htrim.
  apply truthyStr_true_iff in Hne. rewrite Hne. cbn [negb].
  by rewrite Hknown.
Qed.

Lemma heard_nickname_is_rejected_witness :
  let ann := User.mk [49%N] [65; 110; 110]%N [] true None in
  let st := Login.mkState [32; 65; 110; 110]%N (lit "srv-1") [] in
  snd (Login.handleLogin
         (App.existingNicknames (App.receiveAll [HEARTBEAT ann] App.initial)) st)
  = None.
Proof.
  intros ann st.
  rewrite (heard_nickname_is_rejected [HEARTBEAT ann] App.initial
             (HEARTBEAT ann) ann st).
  - reflexivity.
  - apply list_elem_of_here.
  - right. reflexivity.
  - discriminate.
  - reflexivity.
Defined.

(** X20. With a fresh non-blank nickname the form logs in exactly when the
    selected server id is one of [SERVER_LIST]; for an unknown id it does
    nothing and shows no error either. *)
Theorem login_proceeds_iff_server_known (existing : list jsstring)
    (st : Login.State) :
  trim (Login.nickname st) <> [] ->
  trim (Login.nickname st) ∉ existing ->
  (is_Some (snd (Login.handleLogin existing st))
   <-> Login.selectedServerId st ∈ ServerConfig.id <$> SERVER_LIST)
  /\ Login.error (fst (Login.handleLogin existing st)) = [].
Proof.
  intros Hne%truthyStr_true_iff Hfresh%includes_false_iff.
  unfold Login.handleLogin. cbn [Login.setError Login.nickname
    Login.selectedServerId]. rewrite Hne, Hfresh. cbn [negb].
  destruct (find _ SERVER_LIST) as [found|] eqn:Hfind; cbn [snd fst];
    (split; [|done]); split.
  - intros _. apply find_some in Hfind as [Hin Hid%streq_true_iff].
    apply list_elem_of_fmap. exists found. split; [done|].
    by apply list_elem_of_In.
  - intros _. by eexists.
  - by intros [x Hx].
  - intros (server & Hid & Hin%list_elem_of_In)%list_elem_of_fmap.
    pose proof (find_none _ _ Hfind server Hin) as Hno. cbn beta in Hno.
    rewrite Hid, streq_refl in Hno. done.
Qed.

Lemma login_proceeds_iff_server_known_witness :
  let st := Login.mkState [65; 110; 110]%N (lit "srv-9") [] in
  Login.error (fst (Login.handleLogin [] st)) = [].
Proof.
  intros st.
  apply (login_proceeds_iff_server_known [] st).
  - vm_compute. congruence.
  - apply not_elem_of_nil.
Defined.

(** ** Channel names and message ids *)

(** X22. Rooms are isolated by their channel names: two server
    configurations give the same channel name exactly when they have the
    same id, and no room's channel is the channel named
    [BROADCAST_CHANNEL_NAME] on which [App] listens for nicknames. *)
Theorem channel_names_isolate_rooms (server1 server2 : ServerConfig.t) :
  (channelName server1 = channelName server2
   <-> ServerConfig.id server1 = ServerConfig.id server2)
  /\ channelName server1 <> BROADCAST_CHANNEL_NAME.
Proof.
  unfold channelName. split; [split|].
  - intros H. apply app_inv_head in H. by apply app_inv_head in H.
  - by intros ->.
  - intros H. apply (f_equal length) in H. rewrite !length_app in H.
    simpl in H. lia.
Qed.

Lemma lit_inj (s1 s2 : string) : lit s1 = lit s2 -> s1 = s2.
Proof.
  unfold lit. intros H.
  assert (Hl : list_ascii_of_string s1 = list_ascii_of_string s2).
  { revert H. generalize (list_ascii_of_string s1) (list_ascii_of_string s2).
    intros l1; induction l1 as [|a l1 IH]; intros [|b l2]; simpl;
      try done.
    intros [= Hab Hrest]. f_equal; [|by apply IH].
    rewrite <- (ascii_N_embedding a), <- (ascii_N_embedding b). by rewrite Hab. }
  rewrite <- (string_of_list_ascii_of_string s1),
          <- (string_of_list_ascii_of_string s2).
  by rewrite Hl.
Qed.

(** The decimal of an integer names it. *)
Lemma toString_inj (a b : Z) : toString a = toString b -> a = b.
Proof.
  unfold toString. intros H%lit_inj.
  apply (f_equal NilEmpty.int_of_string) in H.
  rewrite !NilEmpty.isi in H. injection H as H.
  rewrite <- (DecimalZ.of_to a), <- (DecimalZ.of_to b). by rewrite H.
Qed.

(** X23. The id of a sent message is decided by the clock alone: two
    messages built by the send handler have the same id exactly when
    [Date.now()] read the same millisecond for both, whoever the senders
    are and whatever the texts; likewise for two replies of the movie bot
    and for two replies of the assistant. *)
Theorem message_ids_follow_the_clock (user1 user2 : User.t)
    (text1 text2 url1 url2 : jsstring) (answer1 answer2 : JsValue)
    (t1 t2 s1 s2 : Z) :
  (Message.id (userMessage user1 text1 t1 s1)
   = Message.id (userMessage user2 text2 t2 s2) <-> t1 = t2)
  /\ (Message.id (movieBotMsg url1 t1 s1) = Message.id (movieBotMsg url2 t2 s2)
      <-> t1 = t2)
  /\ (Message.id (aiMessage answer1 t1 s1) = Message.id (aiMessage answer2 t2 s2)
      <-> t1 = t2).
Proof.
  simpl. repeat split; try (by intros ->).
  - apply toString_inj.
  - intros H%app_inv_tail. by apply toString_inj.
  - intros H%app_inv_tail. by apply toString_inj.
Qed.

(** ** What the view shows *)

(** X24. This client builds video frames for the parser address only.
    After any event other than the receipt of an envelope, a message of the
    transcript that was not there before and is rendered as a video player
    is the reply of the movie timer, and the source of its frame is
    [VIDEO_PARSER_URL] followed by the timer's target; what the user sends,
    what the assistant answers and the welcome line are never rendered as
    video. *)
Theorem video_frames_come_from_movie_replies (currentUser : User.t)
    (ev : Event) (st : State) (msg : Message.t) (caption : JsValue)
    (src : jsstring) :
  (forall now data, ev <> Receive now data) ->
  msg ∈ messages (step currentUser ev st) ->
  renderMessage msg = VideoPlayer caption src ->
  msg ∈ messages st
  \/ exists rawUrl t_id t_ts,
       ev = MovieReply rawUrl t_id t_ts /\ src = VIDEO_PARSER_URL ++ rawUrl.
Proof.
  intros Hev Hin Hrender.
  destruct ev as [now data|now|now|text|t_id t_ts|rawUrl t_id t_ts
                 |query net t_id t_ts| |serverConfig now]; simpl in Hin.
  - by destruct (Hev now data).
  - left. revert Hin. run_handler.
  - by left.
  - by left.
  - unfold handleSendMessage in Hin.
    rewrite handleSendMessageWith_messages in Hin.
    apply elem_of_app in Hin as [Hin|Hin]; [by left|].
    destruct (trim (inputText st)); [by apply elem_of_nil in Hin|].
    apply list_elem_of_singleton in Hin. by subst msg.
  - rewrite movieTimerCallback_messages in Hin.
    apply elem_of_app in Hin as [Hin|Hin%list_elem_of_singleton]; [by left|].
    right. exists rawUrl, t_id, t_ts. split; [done|].
    subst msg. unfold renderMessage in Hrender. simpl in Hrender.
    by injection Hrender as _ <-.
  - destruct (handleSendMessageResume_messages query net t_id t_ts st)
      as (answer & _ & Hmsgs).
    rewrite Hmsgs in Hin.
    apply elem_of_app in Hin as [Hin|Hin%list_elem_of_singleton]; [by left|].
    by subst msg.
  - by left.
  - exfalso. revert Hin. run_handler.
    intros ->%list_elem_of_singleton. done.
Qed.

Lemma video_frames_come_from_movie_replies_witness :
  let me := User.mk [49%N] [65%N] [] true (Some 5%Z) in
  let msg := movieBotMsg [120%N] 3 4 in
  msg ∈ messages (initial me)
  \/ exists rawUrl t_id t_ts,
       MovieReply [120%N] 3 4 = MovieReply rawUrl t_id t_ts
       /\ VIDEO_PARSER_URL ++ [120%N] = VIDEO_PARSER_URL ++ rawUrl.
Proof.
  intros me msg.
  apply (video_frames_come_from_movie_replies me (MovieReply [120%N] 3 4)
           (initial me) msg (Message.content msg) (VIDEO_PARSER_URL ++ [120%N])).
  - discriminate.
  - vm_compute. apply list_elem_of_here.
  - reflexivity.
Defined.

(** X25. A user shown as active is not about to be evicted: when the
    label of an entry of the presence list reads "active" at time [now], a
    cleanup tick at any time up to 1000 ms later keeps the entry. *)
Theorem active_user_survives_next_tick (currentUser : User.t)
    (now tick : Z) (prev : list User.t) (u : User.t) :
  u ∈ prev ->
  statusLabel currentUser now u = ACTIVE ->
  (tick <= now + 1000)%Z ->
  u ∈ cleanup currentUser tick prev.
Proof.
  intros Hin Hlabel Htick. apply elem_of_cleanup. split; [done|].
  unfold statusLabel in Hlabel. unfold keep.
  destruct (streq (User.id u) (User.id currentUser)); [done|].
  unfold User.lastSeenOr0. destruct (User.lastSeen u) as [seen|]; [|done].
  destruct (Z.eqb seen 0); [done|]. cbn [negb andb] in Hlabel.
  destruct (Z.ltb (now - seen) 2000) eqn:Hlt; [|done].
  apply Z.ltb_lt in Hlt. apply Z.ltb_lt. lia.
Qed.

Lemma active_user_survives_next_tick_witness :
  let me := User.mk [49%N] [65%N] [] true (Some 5%Z) in
  let bob := User.mk [50%N] [66%N] [] true (Some 1000%Z) in
  bob ∈ cleanup me 3900 [me; bob].
Proof.
  intros me bob.
  apply (active_user_survives_next_tick me 2900 3900 [me; bob] bob).
  - apply list_elem_of_further, list_elem_of_here.
  - reflexivity.
  - lia.
Defined.

(** X26. The send button is disabled exactly when sending would do
    nothing: [sendDisabled] holds of a state if and only if the send
    handler returns at once and leaves that state as it is. *)
Theorem send_button_disabled_iff_send_is_noop (cmds : Commands)
    (currentUser : User.t) (t_id t_ts : Z) (st : State) :
  sendDisabled st = true
  <-> handleSendMessageWith cmds currentUser t_id t_ts st = (Returned Finished, st).
Proof.
  unfold sendDisabled. split.
  - intros H. apply send_blank.
    destruct (trim (inputText st)); [done|discriminate].
  - intros Hnoop. destruct (trim (inputText st)) as [|c text] eqn:Hc; [done|].
    exfalso.
    assert (Hne : trim (inputText st) <> []) by (by rewrite Hc).
    pose proof (send_messages cmds currentUser t_id t_ts st Hne) as Hmsgs.
    rewrite Hnoop in Hmsgs. simpl in Hmsgs.
    apply (f_equal length) in Hmsgs. rewrite length_app in Hmsgs.
    simpl in Hmsgs. lia.
Qed.

Lemma toString_not_letters (t : Z) (name : string) :
  NilEmpty.int_of_string name = None -> toString t <> lit name.
Proof.
  intros Hname Heq. apply lit_inj in Heq.
  apply (f_equal NilEmpty.int_of_string) in Heq.
  rewrite NilEmpty.isi, Hname in Heq. done.
Qed.

(** X27. The view takes a logged-in user's own messages for theirs and
    never those of the bots or of the system: for a user built by
    [handleLogin] of [App], whose id is the decimal of a clock reading,
    [isMe] holds of the messages that user sends and fails for the replies
    of the assistant and of the movie bot and for the welcome line. *)
Theorem bot_messages_are_never_mine (nickname text rawUrl : jsstring)
    (draw t_login t_seen t_id t_ts : Z) (answer : JsValue)
    (serverConfig : ServerConfig.t) :
  let user := App.newUser nickname draw t_login t_seen in
  isMe user (userMessage user text t_id t_ts) = true
  /\ isMe user (aiMessage answer t_id t_ts) = false
  /\ isMe user (movieBotMsg rawUrl t_id t_ts) = false
  /\ isMe user (welcomeMsg user serverConfig t_ts) = false.
Proof.
  intros user. unfold isMe, user.
  cbn [Message.senderId User.id userMessage aiMessage movieBotMsg welcomeMsg
       App.newUser].
  split; [apply streq_refl|].
  split; [|split]; apply streq_false_iff; intros Heq; symmetry in Heq;
    revert Heq.
  - by apply (toString_not_letters t_login "ai-bot").
  - by apply (toString_not_letters t_login "movie-bot").
  - by apply (toString_not_letters t_login "system").
Qed.
